(** * Undistortion of an OpenSfM reconstruction

    A shallow embedding of [opensfm/commands/undistort.py]: the conversion of
    camera models to pinhole cameras, the split of a panorama into six
    perspective views, the resampling of the rasters and the projection of
    the panorama's observations into the track graph.

    Python floats are IEEE binary64 numbers: they are modelled by Rocq's
    primitive floats.  Python dictionaries keep their insertion order: they
    are modelled by association lists that a write updates in place or
    extends at the end.  Exceptions are values of an error monad. *)

From Stdlib Require Import ZArith List String Bool Floats Lia.
Import ListNotations.

Local Open Scope string_scope.
Local Open Scope Z_scope.

(** ** Exceptions *)

Inductive exn : Type :=
| KeyError (key : string)
| IndexError
| ValueError
| OverflowError
| AttributeError (attribute : string)
| RuntimeError (message : string)
| Cv2Error
| NotImplementedError (message : string).

Inductive result (A : Type) : Type :=
| Ok (value : A)
| Raise (e : exn).

Arguments Ok {A} value.
Arguments Raise {A} e.

Definition bind {A B : Type} (r : result A) (k : A -> result B) : result B :=
  match r with
  | Ok a => k a
  | Raise e => Raise e
  end.

Notation "x <- r ;; k" := (bind r (fun x => k))
  (at level 61, r at next level, right associativity).
Notation "' p <- r ;; k" := (bind r (fun x => let p := x in k))
  (at level 61, p pattern, r at next level, right associativity).

Fixpoint mapM {A B : Type} (f : A -> result B) (l : list A) : result (list B) :=
  match l with
  | [] => Ok []
  | a :: l' => b <- f a ;; bs <- mapM f l' ;; Ok (b :: bs)
  end.

(** ** Python numbers *)

Definition np_pi : float := 0x1.921fb54442d18p+1%float.

(** [float(z)]: the nearest binary64 number. *)
Definition float_of_Z (z : Z) : float :=
  SF2Prim (binary_normalize prec emax z 0 false).

(** [int(f)]: truncation toward zero; it raises on a NaN and on an infinity. *)
Definition int_of_float (f : float) : result Z :=
  match Prim2SF f with
  | S754_nan => Raise ValueError
  | S754_infinity _ => Raise OverflowError
  | S754_zero _ => Ok 0
  | S754_finite s m e =>
      let a := if 0 <=? e then Z.pos m * 2 ^ e else Z.pos m / 2 ^ (- e) in
      Ok (if s then - a else a)
  end.

(** A Python number is an [int] or a [float]; the command line gives the
    image scale as a float, the callers of [undistort_image] for masks give
    the int [1]. *)
Inductive number : Type :=
| PyInt (z : Z)
| PyFloat (f : float).

(** [n == 1.0] *)
Definition eq_1_0 (n : number) : bool :=
  match n with
  | PyInt z => z =? 1
  | PyFloat f => PrimFloat.eqb f 1%float
  end.

(** [z * n] for an int [z] *)
Definition int_mul (z : Z) (n : number) : number :=
  match n with
  | PyInt z' => PyInt (z * z')
  | PyFloat f => PyFloat (float_of_Z z * f)%float
  end.

(** [int(n)] *)
Definition int (n : number) : result Z :=
  match n with
  | PyInt z => Ok z
  | PyFloat f => int_of_float f
  end.

Definition gtb (x y : float) : bool := PrimFloat.ltb y x.

(** ** Dictionaries with string keys, in insertion order *)

Module Dict.

Definition t (V : Type) : Type := list (string * V).

Definition empty {V : Type} : t V := [].

Fixpoint get {V : Type} (d : t V) (k : string) : option V :=
  match d with
  | [] => None
  | (k', v) :: d' => if String.eqb k k' then Some v else get d' k
  end.

(** [d[k] = v] *)
Fixpoint set {V : Type} (d : t V) (k : string) (v : V) : t V :=
  match d with
  | [] => [(k, v)]
  | (k', v') :: d' =>
      if String.eqb k k' then (k', v) :: d' else (k', v') :: set d' k v
  end.

(** [k in d] *)
Definition mem {V : Type} (d : t V) (k : string) : bool :=
  match get d k with
  | Some _ => true
  | None => false
  end.

Definition keys {V : Type} (d : t V) : list string := map fst d.

Definition values {V : Type} (d : t V) : list V := map snd d.

Definition len {V : Type} (d : t V) : nat := List.length d.

(** [d[k]], which raises [KeyError] *)
Definition getitem {V : Type} (d : t V) (k : string) : result V :=
  match get d k with
  | Some v => Ok v
  | None => Raise (KeyError k)
  end.

End Dict.

(** ** Vectors and matrices of floats *)

Definition vec2 : Type := float * float.
Definition vec3 : Type := float * float * float.
Definition vec4 : Type := float * float * float * float.
Definition mat3 : Type := vec3 * vec3 * vec3.
Definition mat4 : Type := vec4 * vec4 * vec4 * vec4.

(** [m.T] *)
Definition transpose (m : mat3) : mat3 :=
  let '((a00, a01, a02), (a10, a11, a12), (a20, a21, a22)) := m in
  ((a00, a10, a20), (a01, a11, a21), (a02, a12, a22)).

(** [m[:3, :3]] *)
Definition top_left_3x3 (m : mat4) : mat3 :=
  let '((a00, a01, a02, _), (a10, a11, a12, _), (a20, a21, a22, _), _) := m in
  ((a00, a01, a02), (a10, a11, a12), (a20, a21, a22)).

Definition dot3 (a b : vec3) : float :=
  let '(a0, a1, a2) := a in
  let '(b0, b1, b2) := b in
  (a0 * b0 + a1 * b1 + a2 * b2)%float.

(** [np.dot(a, b)] of two matrices: rows of [a] against columns of [b]. *)
Definition np_dot_mm (a b : mat3) : mat3 :=
  let '(r0, r1, r2) := a in
  let '(c0, c1, c2) := transpose b in
  ((dot3 r0 c0, dot3 r0 c1, dot3 r0 c2),
   (dot3 r1 c0, dot3 r1 c1, dot3 r1 c2),
   (dot3 r2 c0, dot3 r2 c1, dot3 r2 c2)).

(** [np.dot(v, m)] of a vector and a matrix: [v] against the columns of [m]. *)
Definition np_dot_vm (v : vec3) (m : mat3) : vec3 :=
  let '(c0, c1, c2) := transpose m in
  (dot3 v c0, dot3 v c1, dot3 v c2).

(** The product of a matrix and a column vector: what rotating a bearing by
    a rotation matrix means. *)
Definition mat_vec (m : mat3) (v : vec3) : vec3 :=
  let '(r0, r1, r2) := m in
  (dot3 r0 v, dot3 r1 v, dot3 r2 v).

(** ** The data model of [opensfm.types] *)

(** Modelled from the spec: the camera classes of [opensfm.types], with the
    attributes that the source reads and writes and the data model lists
    (identity, projection kind, size, focal lengths, distortion
    coefficients, and their priors). *)
Module PerspectiveCamera.
Record t : Type := Build {
  id : string;
  width : Z;
  height : Z;
  focal : float;
  focal_prior : float;
  k1 : float;
  k1_prior : float;
  k2 : float;
  k2_prior : float
}.
End PerspectiveCamera.

Module BrownPerspectiveCamera.
Record t : Type := Build {
  id : string;
  width : Z;
  height : Z;
  focal_x : float;
  focal_y : float;
  focal_x_prior : float;
  focal_y_prior : float;
  k1 : float;
  k2 : float;
  p1 : float;
  p2 : float;
  k3 : float;
  k1_prior : float;
  k2_prior : float;
  p1_prior : float;
  p2_prior : float;
  k3_prior : float
}.
End BrownPerspectiveCamera.

Module FisheyeCamera.
Record t : Type := Build {
  id : string;
  width : Z;
  height : Z;
  focal : float;
  focal_prior : float;
  k1 : float;
  k1_prior : float;
  k2 : float;
  k2_prior : float
}.
End FisheyeCamera.

Module SphericalCamera.
Record t : Type := Build {
  id : string;
  width : Z;
  height : Z
}.
End SphericalCamera.

(** A camera object.  [Other] is a camera of a class that the source does not
    know: it has an id and a projection type, and nothing else is read. *)
Inductive Camera : Type :=
| Perspective (c : PerspectiveCamera.t)
| Brown (c : BrownPerspectiveCamera.t)
| Fisheye (c : FisheyeCamera.t)
| Spherical (c : SphericalCamera.t)
| Other (projection_type : string) (id : string).

(** [camera.projection_type] *)
Definition projection_type (camera : Camera) : string :=
  match camera with
  | Perspective _ => "perspective"
  | Brown _ => "brown"
  | Fisheye _ => "fisheye"
  | Spherical _ => "equirectangular"
  | Other p _ => p
  end.

(** [camera.id] *)
Definition camera_id (camera : Camera) : string :=
  match camera with
  | Perspective c => PerspectiveCamera.id c
  | Brown c => BrownPerspectiveCamera.id c
  | Fisheye c => FisheyeCamera.id c
  | Spherical c => SphericalCamera.id c
  | Other _ i => i
  end.

(** [camera.width] and [camera.height] *)
Definition camera_width (camera : Camera) : result Z :=
  match camera with
  | Perspective c => Ok (PerspectiveCamera.width c)
  | Brown c => Ok (BrownPerspectiveCamera.width c)
  | Fisheye c => Ok (FisheyeCamera.width c)
  | Spherical c => Ok (SphericalCamera.width c)
  | Other _ _ => Raise (AttributeError "width")
  end.

Definition camera_height (camera : Camera) : result Z :=
  match camera with
  | Perspective c => Ok (PerspectiveCamera.height c)
  | Brown c => Ok (BrownPerspectiveCamera.height c)
  | Fisheye c => Ok (FisheyeCamera.height c)
  | Spherical c => Ok (SphericalCamera.height c)
  | Other _ _ => Raise (AttributeError "height")
  end.

(** The camera as an object of the class that a function of the source
    expects; reading an attribute that the object lacks raises.  A camera
    of another class has an id and a projection type: [attribute] is the
    first attribute that the function reads and that such a camera lacks. *)
Definition as_perspective (camera : Camera) : result PerspectiveCamera.t :=
  match camera with
  | Perspective c => Ok c
  | _ => Raise (AttributeError "k1")
  end.

Definition as_brown (attribute : string) (camera : Camera)
  : result BrownPerspectiveCamera.t :=
  match camera with
  | Brown c => Ok c
  | _ => Raise (AttributeError attribute)
  end.

Definition as_fisheye (attribute : string) (camera : Camera)
  : result FisheyeCamera.t :=
  match camera with
  | Fisheye c => Ok c
  | _ => Raise (AttributeError attribute)
  end.

(** Modelled from the spec: a pose of [opensfm.types] is a rotation (a 3x3
    matrix) and an origin (a 3-vector), read and written through its
    rotation-matrix and origin accessors. *)
Module Pose.
Record t : Type := Build {
  rotation_matrix : mat3;
  origin : vec3
}.

(** [types.Pose()] *)
Definition new : t :=
  let z := 0%float in
  let o := 1%float in
  Build ((o, z, z), (z, o, z), (z, z, o)) (z, z, z).

Definition get_rotation_matrix (p : t) : mat3 := rotation_matrix p.
Definition get_origin (p : t) : vec3 := origin p.
Definition set_rotation_matrix (p : t) (r : mat3) : t := Build r (origin p).
Definition set_origin (p : t) (o : vec3) : t := Build (rotation_matrix p) o.
End Pose.

(** The metadata of a shot is opaque to this command. *)
Definition ShotMetadata : Type := list (string * float).

Module Shot.
Record t : Type := Build {
  id : string;
  camera : Camera;
  pose : Pose.t;
  metadata : option ShotMetadata
}.
End Shot.

Definition Point : Type := vec3.

Module Reconstruction.
Record t : Type := Build {
  cameras : Dict.t Camera;
  shots : Dict.t Shot.t;
  points : Dict.t Point
}.

(** [types.Reconstruction()] *)
Definition new : t := Build Dict.empty Dict.empty Dict.empty.

Definition set_points (r : t) (p : Dict.t Point) : t :=
  Build (cameras r) (shots r) p.

(** [self.cameras[camera.id] = camera] *)
Definition add_camera (r : t) (camera : Camera) : t :=
  Build (Dict.set (cameras r) (camera_id camera) camera) (shots r) (points r).

(** [self.shots[shot.id] = shot] *)
Definition add_shot (r : t) (shot : Shot.t) : t :=
  Build (cameras r) (Dict.set (shots r) (Shot.id shot) shot) (points r).
End Reconstruction.

(** ** The track graph: a [networkx.Graph]

    The graph keeps an attribute dictionary per node and an adjacency
    dictionary per node, over the same keys; an edge's data is reachable
    from both of its ends. *)

Module Graph.

Record EdgeData : Type := BuildEdge {
  feature : vec2;
  feature_id : Z;
  feature_color : Z * Z * Z
}.

Record Node : Type := BuildNode {
  bipartite : option Z;
  nbrs : Dict.t EdgeData
}.

Definition t : Type := Dict.t Node.

(** [n in graph] *)
Definition contains (graph : t) (n : string) : bool := Dict.mem graph n.

(** [graph.add_node(n, bipartite=b)] *)
Definition add_node (graph : t) (n : string) (b : Z) : t :=
  match Dict.get graph n with
  | None => Dict.set graph n (BuildNode (Some b) Dict.empty)
  | Some node => Dict.set graph n (BuildNode (Some b) (nbrs node))
  end.

(** [graph[n]]: the adjacency dictionary of [n] *)
Definition getitem (graph : t) (n : string) : result (Dict.t EdgeData) :=
  node <- Dict.getitem graph n ;; Ok (nbrs node).

(** The adjacency dictionary of a node as the iterator over it sees it. *)
Definition neighbours (graph : t) (n : string) : Dict.t EdgeData :=
  match Dict.get graph n with
  | Some node => nbrs node
  | None => Dict.empty
  end.

(** The data of the edge between [u] and [v], when there is one. *)
Definition edge (graph : t) (u v : string) : option EdgeData :=
  Dict.get (neighbours graph u) v.

Definition ensure_node (graph : t) (n : string) : t :=
  if Dict.mem graph n then graph
  else Dict.set graph n (BuildNode None Dict.empty).

Definition set_nbr (graph : t) (u v : string) (d : EdgeData) : t :=
  match Dict.get graph u with
  | Some node => Dict.set graph u (BuildNode (bipartite node) (Dict.set (nbrs node) v d))
  | None => graph
  end.

(** [graph.add_edge(u, v, feature=.., feature_id=.., feature_color=..)]:
    both ends become nodes, and the three attributes replace those of an
    edge that exists already. *)
Definition add_edge (graph : t) (u v : string) (d : EdgeData) : t :=
  let graph := ensure_node graph u in
  let graph := ensure_node graph v in
  let graph := set_nbr graph u v d in
  set_nbr graph v u d.

End Graph.

(** ** Rasters and the constants of [cv2] *)

(** An image, a mask or a segmentation: a [numpy] array of integers. *)
Record ndarray : Type := Build_ndarray {
  shape : list Z;
  data : list Z
}.

(** A dense map of pixel coordinates: a [numpy] array of floats. *)
Record farray : Type := Build_farray {
  fshape : list Z;
  fdata : list float
}.

Inductive Interpolation : Type :=
| INTER_NEAREST
| INTER_LINEAR
| INTER_CUBIC
| INTER_AREA
| INTER_LANCZOS4.

Definition Interpolation_eqb (a b : Interpolation) : bool :=
  match a, b with
  | INTER_NEAREST, INTER_NEAREST
  | INTER_LINEAR, INTER_LINEAR
  | INTER_CUBIC, INTER_CUBIC
  | INTER_AREA, INTER_AREA
  | INTER_LANCZOS4, INTER_LANCZOS4 => true
  | _, _ => false
  end.

Inductive BorderMode : Type :=
| BORDER_CONSTANT
| BORDER_WRAP.

(** ** The collaborators of the command

    The geometry of the camera classes, [opensfm.transformations],
    [opensfm.features] and OpenCV are not among the sources: the command is
    stated over any implementation of them in which [cv2.resize] refuses the
    sizes that OpenCV refuses. *)

Class External : Type := {
  (** [camera.get_K_in_pixel_coordinates(width, height)] *)
  get_K_in_pixel_coordinates : Camera -> Z -> Z -> mat3;
  (** [camera.pixel_bearing(pixel)] *)
  pixel_bearing : Camera -> vec2 -> vec3;
  (** [camera.project(point)] *)
  project : Camera -> vec3 -> vec2;
  (** [tf.rotation_matrix(angle, direction)] *)
  rotation_matrix : float -> vec3 -> mat4;
  (** [features.normalized_image_coordinates(pixels, width, height)] *)
  normalized_image_coordinates : list vec2 -> Z -> Z -> list vec2;
  (** [features.denormalized_image_coordinates(points, width, height)] *)
  denormalized_image_coordinates : list vec2 -> Z -> Z -> list vec2;
  (** [x.astype(np.float32)] *)
  float32 : float -> float;
  (** [cv2.resize(image, (width, height), interpolation=i)], which raises
      for the sizes that OpenCV refuses *)
  cv2_resize : ndarray -> Z * Z -> Interpolation -> result ndarray;
  (** [cv2.remap(image, map1, map2, interpolation, borderMode=b)] *)
  cv2_remap : ndarray -> farray -> farray -> Interpolation -> BorderMode -> ndarray;
  (** [cv2.initUndistortRectifyMap(K, distortion, None, new_K, size, cv2.CV_32FC1)] *)
  cv2_initUndistortRectifyMap : mat3 -> list float -> mat3 -> Z * Z -> farray * farray;
  (** [cv2.fisheye.initUndistortRectifyMap(K, distortion, None, new_K, size, cv2.CV_32FC1)] *)
  cv2_fisheye_initUndistortRectifyMap : mat3 -> list float -> mat3 -> Z * Z -> farray * farray;
  (** OpenCV resizes to a size of positive width and height only: for any
      other size [cv2.resize] raises. *)
  cv2_resize_positive :
    forall image width height interpolation raster,
      cv2_resize image (width, height) interpolation = Ok raster ->
      0 < width /\ 0 < height;
  (** What [cv2.resize] raises is an error of OpenCV or of the conversion of
      its arguments, never [NotImplementedError]. *)
  cv2_resize_implemented :
    forall image size interpolation message,
      cv2_resize image size interpolation <> Raise (NotImplementedError message)
}.

(** ** The data set

    Modelled from the spec: the stores of [opensfm.dataset.DataSet] that the
    command reads ([load_image], [load_mask], [load_segmentation] give a
    raster or [None]; the configuration gives [depthmap_resolution] and
    [processes]) and writes (the [save_undistorted_*] operations, each
    recorded in the order of the calls). *)

(** The key under which [undistort_image] returns a raster: the id of the
    shot for a lens, the sub-shot object itself for a panorama. *)
Inductive ResKey : Type :=
| ById (id : string)
| ByShot (shot : Shot.t).

Module DataSet.
Record t : Type := Build {
  depthmap_resolution : Z;
  processes : Z;
  reconstruction : option (list Reconstruction.t);
  tracks_graph : Graph.t;
  images : Dict.t ndarray;
  masks : Dict.t ndarray;
  segmentations : Dict.t ndarray;
  undistorted_reconstruction : option (list Reconstruction.t);
  undistorted_tracks_graph : option Graph.t;
  undistorted_images : list (ResKey * ndarray * string);
  undistorted_masks : list (ResKey * ndarray);
  undistorted_segmentations : list (ResKey * ndarray)
}.

Definition load_image (d : t) (id : string) : option ndarray := Dict.get (images d) id.
Definition load_mask (d : t) (id : string) : option ndarray := Dict.get (masks d) id.
Definition load_segmentation (d : t) (id : string) : option ndarray :=
  Dict.get (segmentations d) id.

Definition save_undistorted_reconstruction (d : t) (r : list Reconstruction.t) : t :=
  Build (depthmap_resolution d) (processes d) (reconstruction d) (tracks_graph d)
    (images d) (masks d) (segmentations d)
    (Some r) (undistorted_tracks_graph d)
    (undistorted_images d) (undistorted_masks d) (undistorted_segmentations d).

Definition save_undistorted_tracks_graph (d : t) (g : Graph.t) : t :=
  Build (depthmap_resolution d) (processes d) (reconstruction d) (tracks_graph d)
    (images d) (masks d) (segmentations d)
    (undistorted_reconstruction d) (Some g)
    (undistorted_images d) (undistorted_masks d) (undistorted_segmentations d).

Definition save_undistorted_image (d : t) (k : ResKey) (v : ndarray) (format : string) : t :=
  Build (depthmap_resolution d) (processes d) (reconstruction d) (tracks_graph d)
    (images d) (masks d) (segmentations d)
    (undistorted_reconstruction d) (undistorted_tracks_graph d)
    (undistorted_images d ++ [(k, v, format)])
    (undistorted_masks d) (undistorted_segmentations d).

Definition save_undistorted_mask (d : t) (k : ResKey) (v : ndarray) : t :=
  Build (depthmap_resolution d) (processes d) (reconstruction d) (tracks_graph d)
    (images d) (masks d) (segmentations d)
    (undistorted_reconstruction d) (undistorted_tracks_graph d)
    (undistorted_images d)
    (undistorted_masks d ++ [(k, v)]) (undistorted_segmentations d).

Definition save_undistorted_segmentation (d : t) (k : ResKey) (v : ndarray) : t :=
  Build (depthmap_resolution d) (processes d) (reconstruction d) (tracks_graph d)
    (images d) (masks d) (segmentations d)
    (undistorted_reconstruction d) (undistorted_tracks_graph d)
    (undistorted_images d) (undistorted_masks d)
    (undistorted_segmentations d ++ [(k, v)]).
End DataSet.

(** ** The camera model converter *)

(** [perspective_camera_from_brown(brown)] *)
Definition perspective_camera_from_brown (brown : BrownPerspectiveCamera.t)
  : PerspectiveCamera.t :=
  {| PerspectiveCamera.id := BrownPerspectiveCamera.id brown;
     PerspectiveCamera.width := BrownPerspectiveCamera.width brown;
     PerspectiveCamera.height := BrownPerspectiveCamera.height brown;
     PerspectiveCamera.focal :=
       ((BrownPerspectiveCamera.focal_x brown + BrownPerspectiveCamera.focal_y brown)
        / 2)%float;
     PerspectiveCamera.focal_prior :=
       ((BrownPerspectiveCamera.focal_x_prior brown
         + BrownPerspectiveCamera.focal_y_prior brown) / 2)%float;
     PerspectiveCamera.k1 := 0%float;
     PerspectiveCamera.k1_prior := 0%float;
     PerspectiveCamera.k2 := 0%float;
     PerspectiveCamera.k2_prior := 0%float |}.

(** [perspective_camera_from_fisheye(fisheye)] *)
Definition perspective_camera_from_fisheye (fisheye : FisheyeCamera.t)
  : PerspectiveCamera.t :=
  {| PerspectiveCamera.id := FisheyeCamera.id fisheye;
     PerspectiveCamera.width := FisheyeCamera.width fisheye;
     PerspectiveCamera.height := FisheyeCamera.height fisheye;
     PerspectiveCamera.focal := FisheyeCamera.focal fisheye;
     PerspectiveCamera.focal_prior := FisheyeCamera.focal_prior fisheye;
     PerspectiveCamera.k1 := 0%float;
     PerspectiveCamera.k1_prior := 0%float;
     PerspectiveCamera.k2 := 0%float;
     PerspectiveCamera.k2_prior := 0%float |}.

(** The arithmetic mean of two floats, as the spec words the focal length of
    the converted Brown camera. *)
Definition arithmetic_mean (a b : float) : float := ((a + b) / 2)%float.

(** What the pass over the shots changes: the new reconstruction, the track
    graph and the dictionary [undistorted_shots]. *)
Module Pass.
Record t : Type := Build {
  urec : Reconstruction.t;
  graph : Graph.t;
  undistorted_shots : Dict.t (list Shot.t)
}.
End Pass.

Section Undistort.

Context {ext : External}.

(** ** The panorama splitter *)

Definition panorama_camera (width : Z) : PerspectiveCamera.t :=
  {| PerspectiveCamera.id := "perspective_panorama_camera";
     PerspectiveCamera.width := width;
     PerspectiveCamera.height := width;
     PerspectiveCamera.focal := 0.5%float;
     PerspectiveCamera.focal_prior := 0.5%float;
     PerspectiveCamera.k1 := 0%float;
     PerspectiveCamera.k1_prior := 0%float;
     PerspectiveCamera.k2 := 0%float;
     PerspectiveCamera.k2_prior := 0%float |}.

Definition names : list string :=
  ["front"; "left"; "back"; "right"; "top"; "bottom"].

Definition rotations : list mat4 :=
  [ rotation_matrix (float_of_Z (- 0) * np_pi / 2)%float (0, 1, 0)%float;
    rotation_matrix (float_of_Z (- 1) * np_pi / 2)%float (0, 1, 0)%float;
    rotation_matrix (float_of_Z (- 2) * np_pi / 2)%float (0, 1, 0)%float;
    rotation_matrix (float_of_Z (- 3) * np_pi / 2)%float (0, 1, 0)%float;
    rotation_matrix ((- np_pi) / 2)%float (1, 0, 0)%float;
    rotation_matrix (np_pi / 2)%float (1, 0, 0)%float ].

(** [perspective_views_of_a_panorama(spherical_shot, width)] *)
Definition perspective_views_of_a_panorama (spherical_shot : Shot.t) (width : Z)
  : list Shot.t :=
  let camera := panorama_camera width in
  map (fun '(name, rotation) =>
         let R := np_dot_mm (top_left_3x3 rotation)
                    (Pose.get_rotation_matrix (Shot.pose spherical_shot)) in
         let o := Pose.get_origin (Shot.pose spherical_shot) in
         {| Shot.id := Shot.id spherical_shot ++ "_perspective_view_" ++ name;
            Shot.camera := Perspective camera;
            Shot.pose := Pose.set_origin (Pose.set_rotation_matrix Pose.new R) o;
            Shot.metadata := None |})
      (combine names rotations).

(** ** The resamplers *)

(** [scale_image(image, scale_factor)] *)
Definition scale_image (image : ndarray) (scale_factor : number) : result ndarray :=
  if eq_1_0 scale_factor then Ok image
  else
    match shape image with
    | [height; width; _] =>
        width <- int (int_mul width scale_factor) ;;
        height <- int (int_mul height scale_factor) ;;
        cv2_resize image (width, height) INTER_NEAREST
    | _ => Raise ValueError
    end.

(** [height, width = image.shape[:2]] *)
Definition height_width (image : ndarray) : result (Z * Z) :=
  match shape image with
  | height :: width :: _ => Ok (height, width)
  | _ => Raise ValueError
  end.

(** [undistort_perspective_image(image, camera, new_camera, interpolation)] *)
Definition undistort_perspective_image (image : ndarray) (camera : PerspectiveCamera.t)
    (new_camera : Camera) (interpolation : Interpolation) : result ndarray :=
  '(height, width) <- height_width image ;;
  let K := get_K_in_pixel_coordinates (Perspective camera) width height in
  let distortion :=
    [PerspectiveCamera.k1 camera; PerspectiveCamera.k2 camera; 0%float; 0%float] in
  let new_K := get_K_in_pixel_coordinates new_camera width height in
  let '(map1, map2) := cv2_initUndistortRectifyMap K distortion new_K (width, height) in
  Ok (cv2_remap image map1 map2 interpolation BORDER_CONSTANT).

(** [undistort_brown_image(image, camera, new_camera, interpolation)] *)
Definition undistort_brown_image (image : ndarray) (camera : BrownPerspectiveCamera.t)
    (new_camera : Camera) (interpolation : Interpolation) : result ndarray :=
  '(height, width) <- height_width image ;;
  let K := get_K_in_pixel_coordinates (Brown camera) width height in
  let distortion :=
    [BrownPerspectiveCamera.k1 camera; BrownPerspectiveCamera.k2 camera;
     BrownPerspectiveCamera.p1 camera; BrownPerspectiveCamera.p2 camera;
     BrownPerspectiveCamera.k3 camera] in
  let new_K := get_K_in_pixel_coordinates new_camera width height in
  let '(map1, map2) := cv2_initUndistortRectifyMap K distortion new_K (width, height) in
  Ok (cv2_remap image map1 map2 interpolation BORDER_CONSTANT).

(** [undistort_fisheye_image(image, camera, new_camera, interpolation)] *)
Definition undistort_fisheye_image (image : ndarray) (camera : FisheyeCamera.t)
    (new_camera : Camera) (interpolation : Interpolation) : result ndarray :=
  '(height, width) <- height_width image ;;
  let K := get_K_in_pixel_coordinates (Fisheye camera) width height in
  let distortion :=
    [FisheyeCamera.k1 camera; FisheyeCamera.k2 camera; 0%float; 0%float] in
  let new_K := get_K_in_pixel_coordinates new_camera width height in
  let '(map1, map2) :=
    cv2_fisheye_initUndistortRectifyMap K distortion new_K (width, height) in
  Ok (cv2_remap image map1 map2 interpolation BORDER_CONSTANT).

(** [np.indices(dst_shape)] as the columns [x, y] of the pixels, row by row. *)
Definition indices_xy (height width : Z) : list vec2 :=
  flat_map (fun y => map (fun x => (float32 (float_of_Z (Z.of_nat x)),
                                    float32 (float_of_Z (Z.of_nat y))))
                         (seq 0 (Z.to_nat width)))
           (seq 0 (Z.to_nat height)).

(** [render_perspective_view_of_a_panorama(image, panoshot, perspectiveshot,
    interpolation)] *)
Definition render_perspective_view_of_a_panorama (image : ndarray)
    (panoshot perspectiveshot : Shot.t) (interpolation : Interpolation)
  : result ndarray :=
  height <- camera_height (Shot.camera perspectiveshot) ;;
  width <- camera_width (Shot.camera perspectiveshot) ;;
  let dst_pixels_denormalized := indices_xy height width in
  let dst_pixels := normalized_image_coordinates dst_pixels_denormalized width height in
  let dst_bearings := map (pixel_bearing (Shot.camera perspectiveshot)) dst_pixels in
  let rotation :=
    np_dot_mm (Pose.get_rotation_matrix (Shot.pose panoshot))
              (transpose (Pose.get_rotation_matrix (Shot.pose perspectiveshot))) in
  let rotated_bearings := map (fun b => np_dot_vm b (transpose rotation)) dst_bearings in
  let src_pixels := map (project (Shot.camera panoshot)) rotated_bearings in
  '(image_height, image_width) <- match shape image with
                                  | h :: w :: _ => Ok (h, w)
                                  | _ => Raise IndexError
                                  end ;;
  let src_pixels_denormalized :=
    denormalized_image_coordinates src_pixels image_width image_height in
  let x := Build_farray [height; width] (map (fun p => float32 (fst p)) src_pixels_denormalized) in
  let y := Build_farray [height; width] (map (fun p => float32 (snd p)) src_pixels_denormalized) in
  Ok (cv2_remap image x y interpolation BORDER_WRAP).

Definition is_in (s : string) (l : list string) : bool := existsb (String.eqb s) l.

(** [undistort_image(shot, undistorted_shots, data, original, interpolation,
    image_scale)] *)
Definition undistort_image (shot : Shot.t) (undistorted_shots : list Shot.t)
    (data : DataSet.t) (original : option ndarray) (interpolation : Interpolation)
    (image_scale : number) : result (option (list (ResKey * ndarray))) :=
  match original with
  | None => Ok None
  | Some original =>
      let projection_type := projection_type (Shot.camera shot) in
      if is_in projection_type ["perspective"; "brown"; "fisheye"] then
        new_camera <- match undistorted_shots with
                      | s :: _ => Ok (Shot.camera s)
                      | [] => Raise IndexError
                      end ;;
        undistorted <-
          (if String.eqb projection_type "perspective" then
             camera <- as_perspective (Shot.camera shot) ;;
             undistort_perspective_image original camera new_camera interpolation
           else if String.eqb projection_type "brown" then
             camera <- as_brown "k1" (Shot.camera shot) ;;
             undistort_brown_image original camera new_camera interpolation
           else
             camera <- as_fisheye "k1" (Shot.camera shot) ;;
             undistort_fisheye_image original camera new_camera interpolation) ;;
        scaled <- scale_image undistorted image_scale ;;
        Ok (Some [(ById (Shot.id shot), scaled)])
      else if is_in projection_type ["equirectangular"; "spherical"] then
        let subshot_width := DataSet.depthmap_resolution data in
        let width := 4 * subshot_width in
        let height := width / 2 in
        image <- cv2_resize original (width, height) interpolation ;;
        let mint :=
          if Interpolation_eqb interpolation INTER_AREA then INTER_LINEAR
          else interpolation in
        res <- mapM (fun subshot =>
                       undistorted <- render_perspective_view_of_a_panorama
                                        image shot subshot mint ;;
                       scaled <- scale_image undistorted image_scale ;;
                       Ok (ByShot subshot, scaled))
                    undistorted_shots ;;
        Ok (Some res)
      else
        Raise (NotImplementedError
                 ("Undistort not implemented for projection type: " ++ projection_type))
  end.

(** ** The track graph projector *)

(** The bearing of an observation of the panorama in the frame of the
    sub-shot: [np.dot(bearing, rotation.T)]. *)
Definition rotated_bearing_of (panoshot perspectiveshot : Shot.t) (feature : vec2) : vec3 :=
  let bearing := pixel_bearing (Shot.camera panoshot) feature in
  let rotation :=
    np_dot_mm (Pose.get_rotation_matrix (Shot.pose perspectiveshot))
              (transpose (Pose.get_rotation_matrix (Shot.pose panoshot))) in
  np_dot_vm bearing (transpose rotation).

(** The body of the loop of [add_subshot_tracks] for one track; a [continue]
    leaves the graph as it is. *)
Definition add_subshot_track (panoshot perspectiveshot : Shot.t) (graph : Graph.t)
    (track : string) : result Graph.t :=
  nbrs <- Graph.getitem graph (Shot.id panoshot) ;;
  edge <- Dict.getitem nbrs track ;;
  let feature := Graph.feature edge in
  let rotated_bearing := rotated_bearing_of panoshot perspectiveshot feature in
  if (snd rotated_bearing <=? 0)%float then Ok graph
  else
    let perspective_feature := project (Shot.camera perspectiveshot) rotated_bearing in
    if (fst perspective_feature <? -0.5)%float
       || gtb (fst perspective_feature) 0.5
       || (snd perspective_feature <? -0.5)%float
       || gtb (snd perspective_feature) 0.5
    then Ok graph
    else
      Ok (Graph.add_edge graph (Shot.id perspectiveshot) track
            {| Graph.feature := perspective_feature;
               Graph.feature_id := Graph.feature_id edge;
               Graph.feature_color := Graph.feature_color edge |}).

(** The loop [for track in graph[panoshot.id]] over the keys that the
    adjacency dictionary had when the loop began.  After each turn the
    iterator compares the size of the dictionary with the size it began
    with, and raises when they differ. *)
Fixpoint add_subshot_tracks_loop (panoshot perspectiveshot : Shot.t)
    (tracks : list string) (size : nat) (graph : Graph.t) : Graph.t * result unit :=
  match tracks with
  | [] => (graph, Ok tt)
  | track :: tracks' =>
      match add_subshot_track panoshot perspectiveshot graph track with
      | Raise e => (graph, Raise e)
      | Ok graph' =>
          if Nat.eqb (Dict.len (Graph.neighbours graph' (Shot.id panoshot))) size
          then add_subshot_tracks_loop panoshot perspectiveshot tracks' size graph'
          else (graph', Raise (RuntimeError "dictionary changed size during iteration"))
      end
  end.

(** [add_subshot_tracks(graph, panoshot, perspectiveshot)]: the graph is
    changed in place, so it is returned also when an exception is raised. *)
Definition add_subshot_tracks (graph : Graph.t) (panoshot perspectiveshot : Shot.t)
  : Graph.t * result unit :=
  if negb (Graph.contains graph (Shot.id panoshot)) then (graph, Ok tt)
  else
    let graph := Graph.add_node graph (Shot.id perspectiveshot) 0 in
    match Graph.getitem graph (Shot.id panoshot) with
    | Raise e => (graph, Raise e)
    | Ok nbrs =>
        add_subshot_tracks_loop panoshot perspectiveshot
          (Dict.keys nbrs) (Dict.len nbrs) graph
    end.

(** ** The batch image resampler *)

(** [undistorted.items()] *)
Definition items (undistorted : option (list (ResKey * ndarray)))
  : result (list (ResKey * ndarray)) :=
  match undistorted with
  | Some d => Ok d
  | None => Raise (AttributeError "items")
  end.

(** [undistort_image_and_masks(arguments)] *)
Definition undistort_image_and_masks
    (arguments : Shot.t * list Shot.t * DataSet.t * string * number)
  : DataSet.t * result unit :=
  let '(shot, undistorted_shots, data, image_format, image_scale) := arguments in
  (* Undistort image *)
  let image := DataSet.load_image data (Shot.id shot) in
  match
    match image with
    | Some _ =>
        undistorted <- undistort_image shot undistorted_shots data image
                         INTER_AREA image_scale ;;
        kvs <- items undistorted ;;
        Ok (fold_left (fun d '(k, v) => DataSet.save_undistorted_image d k v image_format)
                      kvs data)
    | None => Ok data
    end
  with
  | Raise e => (data, Raise e)
  | Ok data =>
      (* Undistort mask *)
      let mask := DataSet.load_mask data (Shot.id shot) in
      match
        match mask with
        | Some _ =>
            undistorted <- undistort_image shot undistorted_shots data mask
                             INTER_NEAREST (PyInt 1) ;;
            kvs <- items undistorted ;;
            Ok (fold_left (fun d '(k, v) => DataSet.save_undistorted_mask d k v) kvs data)
        | None => Ok data
        end
      with
      | Raise e => (data, Raise e)
      | Ok data =>
          (* Undistort segmentation *)
          let segmentation := DataSet.load_segmentation data (Shot.id shot) in
          match
            match segmentation with
            | Some _ =>
                undistorted <- undistort_image shot undistorted_shots data segmentation
                                 INTER_NEAREST (PyInt 1) ;;
                kvs <- items undistorted ;;
                Ok (fold_left (fun d '(k, v) => DataSet.save_undistorted_segmentation d k v)
                              kvs data)
            | None => Ok data
            end
          with
          | Raise e => (data, Raise e)
          | Ok data => (data, Ok tt)
          end
      end
  end.

(** [parallel_map(undistort_image_and_masks, arguments, processes)]: the
    tasks are independent, and each one works on the data set that the ones
    before it left; the first exception ends the map. *)
Fixpoint parallel_map_undistort (data : DataSet.t)
    (arguments : list (Shot.t * list Shot.t * string * number))
  : DataSet.t * result unit :=
  match arguments with
  | [] => (data, Ok tt)
  | (shot, undistorted_shots, image_format, image_scale) :: rest =>
      match undistort_image_and_masks
              (shot, undistorted_shots, data, image_format, image_scale) with
      | (data, Raise e) => (data, Raise e)
      | (data, Ok _) => parallel_map_undistort data rest
      end
  end.

(** ** The reconstruction undistorter *)

(** The inner loop [for subshot in subshots] of the panorama branch. *)
Fixpoint add_subshots (shot : Shot.t) (subshots : list Shot.t)
    (urec : Reconstruction.t) (graph : Graph.t)
  : Reconstruction.t * Graph.t * result unit :=
  match subshots with
  | [] => (urec, graph, Ok tt)
  | subshot :: subshots' =>
      let urec := Reconstruction.add_camera urec (Shot.camera subshot) in
      let urec := Reconstruction.add_shot urec subshot in
      match add_subshot_tracks graph shot subshot with
      | (graph, Raise e) => (urec, graph, Raise e)
      | (graph, Ok _) => add_subshots shot subshots' urec graph
      end
  end.

(** One turn of the loop [for shot in reconstruction.shots.values()] of
    [undistort_reconstruction].  The chain of tests has no [else]. *)
Definition undistort_shot (data : DataSet.t) (st : Pass.t) (shot : Shot.t)
  : Pass.t * result unit :=
  let p := projection_type (Shot.camera shot) in
  if String.eqb p "perspective" then
    let urec := Reconstruction.add_camera (Pass.urec st) (Shot.camera shot) in
    let urec := Reconstruction.add_shot urec shot in
    (Pass.Build urec (Pass.graph st)
       (Dict.set (Pass.undistorted_shots st) (Shot.id shot) [shot]), Ok tt)
  else if String.eqb p "brown" then
    match as_brown "width" (Shot.camera shot) with
    | Raise e => (st, Raise e)
    | Ok brown =>
        let ushot :=
          {| Shot.id := Shot.id shot;
             Shot.camera := Perspective (perspective_camera_from_brown brown);
             Shot.pose := Shot.pose shot;
             Shot.metadata := Shot.metadata shot |} in
        let urec := Reconstruction.add_camera (Pass.urec st) (Shot.camera ushot) in
        let urec := Reconstruction.add_shot urec ushot in
        (Pass.Build urec (Pass.graph st)
           (Dict.set (Pass.undistorted_shots st) (Shot.id shot) [ushot]), Ok tt)
    end
  else if String.eqb p "fisheye" then
    match as_fisheye "width" (Shot.camera shot) with
    | Raise e => (st, Raise e)
    | Ok fisheye =>
        let ushot :=
          {| Shot.id := Shot.id shot;
             Shot.camera := Perspective (perspective_camera_from_fisheye fisheye);
             Shot.pose := Shot.pose shot;
             Shot.metadata := Shot.metadata shot |} in
        let urec := Reconstruction.add_camera (Pass.urec st) (Shot.camera ushot) in
        let urec := Reconstruction.add_shot urec ushot in
        (Pass.Build urec (Pass.graph st)
           (Dict.set (Pass.undistorted_shots st) (Shot.id shot) [ushot]), Ok tt)
    end
  else if is_in p ["equirectangular"; "spherical"] then
    let subshot_width := DataSet.depthmap_resolution data in
    let subshots := perspective_views_of_a_panorama shot subshot_width in
    match add_subshots shot subshots (Pass.urec st) (Pass.graph st) with
    | (urec, graph, Raise e) => (Pass.Build urec graph (Pass.undistorted_shots st), Raise e)
    | (urec, graph, Ok _) =>
        (Pass.Build urec graph
           (Dict.set (Pass.undistorted_shots st) (Shot.id shot) subshots), Ok tt)
    end
  else (st, Ok tt).

Fixpoint undistort_shots (data : DataSet.t) (st : Pass.t) (shots : list Shot.t)
  : Pass.t * result unit :=
  match shots with
  | [] => (st, Ok tt)
  | shot :: shots' =>
      match undistort_shot data st shot with
      | (st, Raise e) => (st, Raise e)
      | (st, Ok _) => undistort_shots data st shots'
      end
  end.

(** The second loop of [undistort_reconstruction], which builds the
    arguments of the tasks: [undistorted_shots[shot.id]] raises [KeyError]
    for a shot that the pass did not enter.  The data set, which each tuple
    of the source carries, is the one object that the tasks change: the map
    over the tasks threads it. *)
Definition task_arguments (undistorted_shots : Dict.t (list Shot.t))
    (image_format : string) (image_scale : number) (shots : list Shot.t)
  : result (list (Shot.t * list Shot.t * string * number)) :=
  mapM (fun shot =>
          ushots <- Dict.getitem undistorted_shots (Shot.id shot) ;;
          Ok (shot, ushots, image_format, image_scale))
       shots.

(** [Command.undistort_reconstruction(graph, reconstruction, data,
    image_format, image_scale)]: the data set and the graph as the call
    leaves them, and how the call ended. *)
Definition undistort_reconstruction (graph : Graph.t) (reconstruction : Reconstruction.t)
    (data : DataSet.t) (image_format : string) (image_scale : number)
  : DataSet.t * Graph.t * result unit :=
  let urec := Reconstruction.set_points Reconstruction.new
                (Reconstruction.points reconstruction) in
  let shots := Dict.values (Reconstruction.shots reconstruction) in
  match undistort_shots data (Pass.Build urec graph Dict.empty) shots with
  | (st, Raise e) => (data, Pass.graph st, Raise e)
  | (st, Ok _) =>
      let data := DataSet.save_undistorted_reconstruction data [Pass.urec st] in
      match task_arguments (Pass.undistorted_shots st) image_format image_scale shots with
      | Raise e => (data, Pass.graph st, Raise e)
      | Ok arguments =>
          match parallel_map_undistort data arguments with
          | (data, r) => (data, Pass.graph st, r)
          end
      end
  end.

(** [Command.run(args)] on a data set, with the image format and the image
    scale of the command line. *)
Definition run (data : DataSet.t) (image_format : string) (image_scale : number)
  : DataSet.t * result unit :=
  let graph := DataSet.tracks_graph data in
  match
    match DataSet.reconstruction data with
    | Some (reconstruction :: _) =>
        undistort_reconstruction graph reconstruction data image_format image_scale
    | _ => (data, graph, Ok tt)
    end
  with
  | (data, graph, Raise e) => (data, Raise e)
  | (data, graph, Ok _) => (DataSet.save_undistorted_tracks_graph data graph, Ok tt)
  end.

(** ** The words of the claims on the results of the command *)

(** The visibility test of the loop of [add_subshot_tracks]: neither of its
    two [continue] is taken. *)
Definition visible (rotated_bearing : vec3) (perspective_feature : vec2) : bool :=
  negb (snd rotated_bearing <=? 0)%float
  && negb ((fst perspective_feature <? -0.5)%float
           || gtb (fst perspective_feature) 0.5
           || (snd perspective_feature <? -0.5)%float
           || gtb (snd perspective_feature) 0.5).

(** What one observation of the panorama becomes in the sub-shot: the data
    of the new edge, or nothing when the observation is not visible. *)
Definition subshot_observation (panoshot perspectiveshot : Shot.t) (edge : Graph.EdgeData)
  : option Graph.EdgeData :=
  let rotated_bearing :=
    rotated_bearing_of panoshot perspectiveshot (Graph.feature edge) in
  let perspective_feature := project (Shot.camera perspectiveshot) rotated_bearing in
  if visible rotated_bearing perspective_feature then
    Some {| Graph.feature := perspective_feature;
            Graph.feature_id := Graph.feature_id edge;
            Graph.feature_color := Graph.feature_color edge |}
  else None.

(** The observations of the panorama, projected track by track. *)
Definition projected (panoshot perspectiveshot : Shot.t) (nbrs : Dict.t Graph.EdgeData)
    (track : string) : option Graph.EdgeData :=
  match Dict.get nbrs track with
  | Some edge => subshot_observation panoshot perspectiveshot edge
  | None => None
  end.

(** The rasters of one kind (image, mask or segmentation) that a task
    computes for a shot before it saves them: those of [undistort_image]
    with the interpolation and the scale that the task gives for the kind,
    and none for a raster that the data set does not have. *)
Definition undistorted_rasters (shot : Shot.t) (ushots : list Shot.t) (data : DataSet.t)
    (raster : option ndarray) (interpolation : Interpolation) (image_scale : number)
  : result (list (ResKey * ndarray)) :=
  match raster with
  | None => Ok []
  | Some _ =>
      undistorted <- undistort_image shot ushots data raster interpolation image_scale ;;
      items undistorted
  end.

End Undistort.

(** ** The words of the spec *)

(** A quarter of a turn, 90 degrees, in radians. *)
Definition quarter_turn : float := (np_pi / 2)%float.

Definition vertical_axis : vec3 := (0, 1, 0)%float.
Definition horizontal_axis : vec3 := (1, 0, 0)%float.

(** The six faces of the cube in the order of the spec, each with the angle
    and the axis of its rotation: minus [i] quarter turns about the vertical
    axis for the faces 0 to 3, minus and plus a quarter turn about the
    horizontal axis for the top and the bottom. *)
Definition cube_faces : list (string * float * vec3) :=
  [ ("front", (float_of_Z (- 0) * quarter_turn)%float, vertical_axis);
    ("left", (float_of_Z (- 1) * quarter_turn)%float, vertical_axis);
    ("back", (float_of_Z (- 2) * quarter_turn)%float, vertical_axis);
    ("right", (float_of_Z (- 3) * quarter_turn)%float, vertical_axis);
    ("top", (- quarter_turn)%float, horizontal_axis);
    ("bottom", quarter_turn, horizontal_axis) ].

(** A float that is neither a NaN nor an infinity. *)
Definition finite (x : float) : bool :=
  match Prim2SF x with
  | S754_nan | S754_infinity _ => false
  | _ => true
  end.

(** The integer part of a finite float. *)
Definition truncate (x : float) : Z :=
  match int_of_float x with
  | Ok z => z
  | Raise _ => 0
  end.

(** The interpolation of the sampling step of a panorama. *)
Definition panorama_sampling (interpolation : Interpolation) : Interpolation :=
  match interpolation with
  | INTER_AREA => INTER_LINEAR
  | i => i
  end.

(** A dimension of the image multiplied by the factor and truncated to an
    integer. *)
Definition scaled_dimension (n : Z) (factor : number) : Z :=
  match factor with
  | PyInt z => n * z
  | PyFloat f => truncate (float_of_Z n * f)
  end.

(** The product of the dimension and the factor is a number: neither a NaN
    nor an infinity. *)
Definition scalable (n : Z) (factor : number) : bool :=
  match factor with
  | PyInt _ => true
  | PyFloat f => finite (float_of_Z n * f)
  end.

(** The data set [d] with further rasters saved after those that it holds:
    its inputs, its configuration and the reconstruction and the track graph
    that were saved are those of [d]. *)
Definition with_saved (d : DataSet.t) (images : list (ResKey * ndarray * string))
    (masks segmentations : list (ResKey * ndarray)) : DataSet.t :=
  DataSet.Build (DataSet.depthmap_resolution d) (DataSet.processes d)
    (DataSet.reconstruction d) (DataSet.tracks_graph d)
    (DataSet.images d) (DataSet.masks d) (DataSet.segmentations d)
    (DataSet.undistorted_reconstruction d) (DataSet.undistorted_tracks_graph d)
    (DataSet.undistorted_images d ++ images)
    (DataSet.undistorted_masks d ++ masks)
    (DataSet.undistorted_segmentations d ++ segmentations).

(** The rasters of a task with the format in which the images are saved. *)
Definition in_format (image_format : string) (rasters : list (ResKey * ndarray))
  : list (ResKey * ndarray * string) :=
  map (fun '(key, raster) => (key, raster, image_format)) rasters.

Section Sampling.

Context {ext : External}.

(** The raster [raster], under the key [key], is sampled from [original]
    for the shot with the interpolation [interpolation], and nothing has
    resized it afterwards.  For a lens camera it is the remap of [original]
    itself, under the id of the shot; for a panorama it is the remap, with
    [panorama_sampling interpolation] and wrapping at the border, of
    [original] resized to 4 W by 4 W / 2 with [interpolation], under a
    sub-shot. *)
Definition sampled (shot : Shot.t) (data : DataSet.t) (original : ndarray)
    (interpolation : Interpolation) (key : ResKey) (raster : ndarray) : Prop :=
  let p := projection_type (Shot.camera shot) in
  (is_in p ["perspective"; "brown"; "fisheye"] = true
   /\ key = ById (Shot.id shot)
   /\ exists map1 map2,
        raster = cv2_remap original map1 map2 interpolation BORDER_CONSTANT)
  \/ (is_in p ["equirectangular"; "spherical"] = true
      /\ exists image subshot x y,
           cv2_resize original
             (4 * DataSet.depthmap_resolution data,
              4 * DataSet.depthmap_resolution data / 2) interpolation = Ok image
           /\ key = ByShot subshot
           /\ raster = cv2_remap image x y (panorama_sampling interpolation) BORDER_WRAP).

End Sampling.

(** ** Inputs for the examples *)

(** A reconstruction of two shots: a perspective one, and one of a camera
    whose projection type the command does not know. *)
Definition example_perspective_shot : Shot.t :=
  {| Shot.id := "a.jpg";
     Shot.camera :=
       Perspective
         {| PerspectiveCamera.id := "camera_a";
            PerspectiveCamera.width := 640;
            PerspectiveCamera.height := 480;
            PerspectiveCamera.focal := 0.75%float;
            PerspectiveCamera.focal_prior := 0.75%float;
            PerspectiveCamera.k1 := 0%float;
            PerspectiveCamera.k1_prior := 0%float;
            PerspectiveCamera.k2 := 0%float;
            PerspectiveCamera.k2_prior := 0%float |};
     Shot.pose := Pose.new;
     Shot.metadata := None |}.

Definition example_unsupported_shot : Shot.t :=
  {| Shot.id := "b.jpg";
     Shot.camera := Other "dual" "camera_b";
     Shot.pose := Pose.new;
     Shot.metadata := None |}.

Definition example_reconstruction : Reconstruction.t :=
  {| Reconstruction.cameras :=
       [("camera_a", Shot.camera example_perspective_shot);
        ("camera_b", Shot.camera example_unsupported_shot)];
     Reconstruction.shots :=
       [("a.jpg", example_perspective_shot); ("b.jpg", example_unsupported_shot)];
     Reconstruction.points := Dict.empty |}.

Definition example_data : DataSet.t :=
  {| DataSet.depthmap_resolution := 640;
     DataSet.processes := 1;
     DataSet.reconstruction := Some [example_reconstruction];
     DataSet.tracks_graph := Dict.empty;
     DataSet.images := Dict.empty;
     DataSet.masks := Dict.empty;
     DataSet.segmentations := Dict.empty;
     DataSet.undistorted_reconstruction := None;
     DataSet.undistorted_tracks_graph := None;
     DataSet.undistorted_images := [];
     DataSet.undistorted_masks := [];
     DataSet.undistorted_segmentations := [] |}.

(** ** A test double of the collaborators

    Pinhole geometry for every camera, identity sampling, and rasters of
    the sizes that OpenCV gives: enough to run the command on concrete
    inputs. *)

Definition stub_focal (camera : Camera) : float :=
  match camera with
  | Perspective c => PerspectiveCamera.focal c
  | Brown c => BrownPerspectiveCamera.focal_x c
  | Fisheye c => FisheyeCamera.focal c
  | _ => 0.5%float
  end.

Definition stub_K (camera : Camera) (width height : Z) : mat3 :=
  let f := (stub_focal camera * float_of_Z (Z.max width height))%float in
  ((f, 0, 0.5 * (float_of_Z width - 1)),
   (0, f, 0.5 * (float_of_Z height - 1)),
   (0, 0, 1))%float.

Definition stub_pixel_bearing (camera : Camera) (pixel : vec2) : vec3 :=
  (fst pixel, snd pixel, stub_focal camera).

Definition stub_project (camera : Camera) (point : vec3) : vec2 :=
  let '(x, y, z) := point in
  (stub_focal camera * x / z, stub_focal camera * y / z)%float.

Definition stub_rotation_matrix (angle : float) (direction : vec3) : mat4 :=
  ((1, 0, 0, 0), (0, 1, 0, 0), (0, 0, 1, 0), (0, 0, 0, 1))%float.

Definition stub_maps (K : mat3) (distortion : list float) (new_K : mat3) (size : Z * Z)
  : farray * farray :=
  let '(width, height) := size in
  (Build_farray [height; width] [], Build_farray [height; width] []).

Definition stub_resize (image : ndarray) (size : Z * Z) (interpolation : Interpolation)
  : result ndarray :=
  if (0 <? fst size) && (0 <? snd size) then
    Ok (Build_ndarray (snd size :: fst size :: skipn 2 (shape image)) (data image))
  else Raise Cv2Error.

Definition stub_resize_positive (image : ndarray) (width height : Z)
    (interpolation : Interpolation) (raster : ndarray)
  : stub_resize image (width, height) interpolation = Ok raster ->
    0 < width /\ 0 < height.
Proof.
  unfold stub_resize. cbn [fst snd].
  destruct (Z.ltb_spec 0 width); [|discriminate].
  destruct (Z.ltb_spec 0 height); [|discriminate].
  intros _. split; assumption.
Defined.

Definition stub_resize_implemented (image : ndarray) (size : Z * Z)
    (interpolation : Interpolation) (message : string)
  : stub_resize image size interpolation <> Raise (NotImplementedError message).
Proof.
  unfold stub_resize. destruct ((0 <? fst size) && (0 <? snd size)); discriminate.
Defined.

Definition stub_external : External :=
  {| get_K_in_pixel_coordinates := stub_K;
     pixel_bearing := stub_pixel_bearing;
     project := stub_project;
     rotation_matrix := stub_rotation_matrix;
     normalized_image_coordinates := fun pixels _ _ => pixels;
     denormalized_image_coordinates := fun points _ _ => points;
     float32 := fun x => x;
     cv2_resize := stub_resize;
     cv2_remap := fun image map1 _ _ _ =>
       Build_ndarray (fshape map1 ++ skipn 2 (shape image)) (data image);
     cv2_initUndistortRectifyMap := stub_maps;
     cv2_fisheye_initUndistortRectifyMap := stub_maps;
     cv2_resize_positive := stub_resize_positive;
     cv2_resize_implemented := stub_resize_implemented |}.

(** A panorama with two observations, its front sub-shot, and its sub-shot
    that looks backwards. *)
Definition example_panorama : Shot.t :=
  {| Shot.id := "pano.jpg";
     Shot.camera := Spherical (SphericalCamera.Build "camera_p" 2048 1024);
     Shot.pose := Pose.new;
     Shot.metadata := None |}.

Definition example_front : Shot.t :=
  {| Shot.id := "pano.jpg_perspective_view_front";
     Shot.camera := Perspective (panorama_camera 640);
     Shot.pose := Pose.new;
     Shot.metadata := None |}.

Definition example_back : Shot.t :=
  {| Shot.id := "pano.jpg_perspective_view_back";
     Shot.camera := Perspective (panorama_camera 640);
     Shot.pose := Pose.Build ((-1, 0, 0), (0, 1, 0), (0, 0, -1))%float (0, 0, 0)%float;
     Shot.metadata := None |}.

Definition example_observation : Graph.EdgeData :=
  {| Graph.feature := (0.125, 0.0625)%float;
     Graph.feature_id := 7;
     Graph.feature_color := (255, 128, 0) |}.

Definition example_far_observation : Graph.EdgeData :=
  {| Graph.feature := (0.75, 0.0625)%float;
     Graph.feature_id := 8;
     Graph.feature_color := (0, 0, 255) |}.

Definition example_graph : Graph.t :=
  [ ("pano.jpg",
     Graph.BuildNode (Some 0)
       [("track1", example_observation); ("track2", example_far_observation)]);
    ("track1", Graph.BuildNode (Some 1) [("pano.jpg", example_observation)]);
    ("track2", Graph.BuildNode (Some 1) [("pano.jpg", example_far_observation)]) ].

(** The graph of the example with a third observation, whose first
    coordinate is not a number. *)
Definition example_nan_observation : Graph.EdgeData :=
  {| Graph.feature := (nan, 0.0625)%float;
     Graph.feature_id := 9;
     Graph.feature_color := (0, 255, 0) |}.

Definition example_nan_graph : Graph.t :=
  [ ("pano.jpg",
     Graph.BuildNode (Some 0)
       [("track1", example_observation); ("track3", example_nan_observation)]);
    ("track1", Graph.BuildNode (Some 1) [("pano.jpg", example_observation)]);
    ("track3", Graph.BuildNode (Some 1) [("pano.jpg", example_nan_observation)]) ].

Definition example_image : ndarray := Build_ndarray [480; 640; 3] [].
Definition example_mask : ndarray := Build_ndarray [480; 640] [].

Definition example_data_with_rasters : DataSet.t :=
  {| DataSet.depthmap_resolution := 640;
     DataSet.processes := 1;
     DataSet.reconstruction := None;
     DataSet.tracks_graph := Dict.empty;
     DataSet.images := [("a.jpg", example_image)];
     DataSet.masks := [("a.jpg", example_mask)];
     DataSet.segmentations := [("a.jpg", example_mask)];
     DataSet.undistorted_reconstruction := None;
     DataSet.undistorted_tracks_graph := None;
     DataSet.undistorted_images := [];
     DataSet.undistorted_masks := [];
     DataSet.undistorted_segmentations := [] |}.

Definition example_small_front : Shot.t :=
  {| Shot.id := "pano.jpg_perspective_view_front";
     Shot.camera := Perspective (panorama_camera 2);
     Shot.pose := Pose.new;
     Shot.metadata := None |}.


(** ** The words of the further properties *)

(** The projection types that the command knows. *)
Definition known_projection_types : list string :=
  ["perspective"; "brown"; "fisheye"; "equirectangular"; "spherical"].

(** A shot of a camera of one of these types. *)
Definition supported (shot : Shot.t) : bool :=
  is_in (projection_type (Shot.camera shot)) known_projection_types.

(** An exception other than [NotImplementedError]. *)
Definition implemented (e : exn) : Prop :=
  match e with
  | NotImplementedError _ => False
  | _ => True
  end.

(** A computation that ends well or with an exception among [allowed]. *)
Definition raises_only {A : Type} (allowed : exn -> Prop) (r : result A) : Prop :=
  match r with
  | Ok _ => True
  | Raise e => allowed e
  end.

(** A shot whose camera has the projection type of a pinhole camera. *)
Definition perspective_type (shot : Shot.t) : Prop :=
  projection_type (Shot.camera shot) = "perspective".

(** Every value of the dictionary satisfies [P]. *)
Definition Dict_Forall {V : Type} (P : V -> Prop) (d : Dict.t V) : Prop :=
  Forall P (Dict.values d).

(** The new reconstruction holds cameras and shots of the perspective type
    only, and every entry of [undistorted_shots] holds one or six such
    shots. *)
Definition undistorted_only (st : Pass.t) : Prop :=
  Dict_Forall (fun camera => projection_type camera = "perspective")
    (Reconstruction.cameras (Pass.urec st))
  /\ Dict_Forall perspective_type (Reconstruction.shots (Pass.urec st))
  /\ Dict_Forall (fun shots => (List.length shots = 1%nat \/ List.length shots = 6%nat)
                               /\ Forall perspective_type shots)
       (Pass.undistorted_shots st).

(** The state in which [undistort_reconstruction] begins its pass. *)
Definition initial_pass (graph : Graph.t) (reconstruction : Reconstruction.t) : Pass.t :=
  Pass.Build
    (Reconstruction.set_points Reconstruction.new (Reconstruction.points reconstruction))
    graph Dict.empty.

(** The shot that the pass enters in the new reconstruction for a shot of a
    lens camera: the shot itself for a perspective camera, and a shot of the
    same id, pose and metadata with the converted camera for a brown or a
    fisheye camera. *)
Definition undistorted_shot_of (shot : Shot.t) : option Shot.t :=
  match Shot.camera shot with
  | Perspective _ => Some shot
  | Brown brown =>
      Some {| Shot.id := Shot.id shot;
              Shot.camera := Perspective (perspective_camera_from_brown brown);
              Shot.pose := Shot.pose shot;
              Shot.metadata := Shot.metadata shot |}
  | Fisheye fisheye =>
      Some {| Shot.id := Shot.id shot;
              Shot.camera := Perspective (perspective_camera_from_fisheye fisheye);
              Shot.pose := Shot.pose shot;
              Shot.metadata := Shot.metadata shot |}
  | _ => None
  end.

(** An undirected graph: an edge has the same data from both of its ends. *)
Definition symmetric (graph : Graph.t) : Prop :=
  forall u v, Graph.edge graph u v = Graph.edge graph v u.

(** The [bipartite] attribute of a node, when the node has one. *)
Definition node_bipartite (graph : Graph.t) (n : string) : option Z :=
  match Dict.get graph n with
  | Some node => Graph.bipartite node
  | None => None
  end.

(** A shot of a camera of the brown model, and a reconstruction of lens
    cameras only. *)
Definition example_brown_shot : Shot.t :=
  {| Shot.id := "c.jpg";
     Shot.camera :=
       Brown
         {| BrownPerspectiveCamera.id := "camera_c";
            BrownPerspectiveCamera.width := 640;
            BrownPerspectiveCamera.height := 480;
            BrownPerspectiveCamera.focal_x := 0.75%float;
            BrownPerspectiveCamera.focal_y := 0.5%float;
            BrownPerspectiveCamera.focal_x_prior := 0.75%float;
            BrownPerspectiveCamera.focal_y_prior := 0.5%float;
            BrownPerspectiveCamera.k1 := 0.125%float;
            BrownPerspectiveCamera.k2 := 0%float;
            BrownPerspectiveCamera.p1 := 0%float;
            BrownPerspectiveCamera.p2 := 0%float;
            BrownPerspectiveCamera.k3 := 0%float;
            BrownPerspectiveCamera.k1_prior := 0%float;
            BrownPerspectiveCamera.k2_prior := 0%float;
            BrownPerspectiveCamera.p1_prior := 0%float;
            BrownPerspectiveCamera.p2_prior := 0%float;
            BrownPerspectiveCamera.k3_prior := 0%float |};
     Shot.pose := Pose.new;
     Shot.metadata := None |}.

Definition example_lens_reconstruction : Reconstruction.t :=
  {| Reconstruction.cameras :=
       [("camera_a", Shot.camera example_perspective_shot);
        ("camera_c", Shot.camera example_brown_shot)];
     Reconstruction.shots :=
       [("a.jpg", example_perspective_shot); ("c.jpg", example_brown_shot)];
     Reconstruction.points := Dict.empty |}.

(** ** The model on small inputs *)

Example float_of_Z_exact :
  float_of_Z 640 = 640%float /\ float_of_Z (- 3) = (-3)%float /\ float_of_Z (- 0) = 0%float.
Proof. repeat split. Qed.

Example int_of_float_truncates :
  int_of_float 2.75 = Ok 2
  /\ int_of_float (-2.75) = Ok (- 2)
  /\ int_of_float 0.25 = Ok 0
  /\ int_of_float nan = Raise ValueError
  /\ int_of_float infinity = Raise OverflowError.
Proof. repeat split. Qed.

Example eq_1_0_int_and_float :
  eq_1_0 (PyInt 1) = true /\ eq_1_0 (PyFloat 1) = true /\ eq_1_0 (PyFloat 0.5) = false.
Proof. repeat split. Qed.

Example Dict_set_keeps_the_order :
  Dict.set (Dict.set [("a", 1)] "b" 2) "a" 3 = [("a", 3); ("b", 2)].
Proof. reflexivity. Qed.

Example add_edge_reaches_both_ends :
  let graph := Graph.add_edge Dict.empty "shot" "track" example_observation in
  Graph.edge graph "shot" "track" = Some example_observation
  /\ Graph.edge graph "track" "shot" = Some example_observation
  /\ Dict.keys graph = ["shot"; "track"].
Proof. repeat split. Qed.

(** The front sub-shot of the example sees the first observation and not
    the second one, whose projection is at 0.75. *)
Example front_view_of_the_example :
  let graph' :=
    fst (add_subshot_tracks (ext := stub_external)
           example_graph example_panorama example_front) in
  Dict.keys (Graph.neighbours graph' (Shot.id example_front)) = ["track1"]
  /\ Graph.edge graph' "track2" (Shot.id example_front) = None.
Proof. repeat split. Qed.

(** ** Facts on the floats *)

Lemma SFcompare_antisym (a b : spec_float) (c : comparison) :
  SFcompare a b = Some c -> SFcompare b a = Some (CompOpp c).
Proof.
  destruct a as [sa|sa| |sa ma ea], b as [sb|sb| |sb mb eb]; simpl;
    try discriminate;
    try (intros H; injection H as <-; try destruct sa; try destruct sb; reflexivity).
  intros H; injection H as <-. f_equal.
  destruct sa, sb; try reflexivity.
  - rewrite (Z.compare_antisym ea eb).
    destruct (ea ?= eb)%Z; simpl; try reflexivity.
    now rewrite (Pos.compare_cont_antisym ma mb Eq).
  - rewrite (Z.compare_antisym ea eb).
    destruct (ea ?= eb)%Z; simpl; try reflexivity.
    now rewrite (Pos.compare_cont_antisym ma mb Eq).
Qed.

Lemma SFcompare_number (a b : spec_float) :
  a <> S754_nan -> b <> S754_nan -> exists c, SFcompare a b = Some c.
Proof.
  destruct a, b; simpl; intros; try contradiction; eauto.
Qed.

Lemma is_nan_false (x : float) : is_nan x = false -> Prim2SF x <> S754_nan.
Proof.
  unfold is_nan. rewrite FloatAxioms.eqb_spec. intros H E. rewrite E in H. discriminate.
Qed.

(** For two numbers, [x <= y] fails exactly when [y < x] holds. *)
Lemma leb_false_ltb (x y : float) :
  is_nan x = false -> is_nan y = false -> (x <=? y)%float = false -> (y <? x)%float = true.
Proof.
  intros Hx%is_nan_false Hy%is_nan_false.
  rewrite FloatAxioms.leb_spec, FloatAxioms.ltb_spec. unfold SFleb, SFltb.
  destruct (SFcompare_number _ _ Hx Hy) as [c Hc].
  rewrite Hc, (SFcompare_antisym _ _ _ Hc). destruct c; simpl; congruence.
Qed.

Lemma ltb_false_leb (x y : float) :
  is_nan x = false -> is_nan y = false -> (x <? y)%float = false -> (y <=? x)%float = true.
Proof.
  intros Hx%is_nan_false Hy%is_nan_false.
  rewrite FloatAxioms.leb_spec, FloatAxioms.ltb_spec. unfold SFleb, SFltb.
  destruct (SFcompare_number _ _ Hx Hy) as [c Hc].
  rewrite Hc, (SFcompare_antisym _ _ _ Hc). destruct c; simpl; congruence.
Qed.

(** The product of two floats does not depend on their order. *)
Lemma float_mul_comm (x y : float) : (x * y)%float = (y * x)%float.
Proof.
  rewrite <- (SF2Prim_Prim2SF (x * y)), <- (SF2Prim_Prim2SF (y * x)).
  rewrite !FloatAxioms.mul_spec. f_equal.
  unfold SF64mul, SFmul.
  destruct (Prim2SF x) as [sx|sx| |sx mx ex], (Prim2SF y) as [sy|sy| |sy my ey];
    try reflexivity; try (destruct sx, sy; reflexivity).
  now rewrite (Pos.mul_comm mx my), (Z.add_comm ex ey), (Bool.xorb_comm sx sy).
Qed.

Lemma dot3_comm (a b : vec3) : dot3 a b = dot3 b a.
Proof.
  destruct a as [[a0 a1] a2], b as [[b0 b1] b2]. unfold dot3.
  now rewrite (float_mul_comm a0 b0), (float_mul_comm a1 b1), (float_mul_comm a2 b2).
Qed.

Lemma transpose_involutive (m : mat3) : transpose (transpose m) = m.
Proof.
  now destruct m as [[[[a00 a01] a02] [[a10 a11] a12]] [[a20 a21] a22]].
Qed.

(** [np.dot(v, m.T)] is the product of [m] and the column vector [v]. *)
Lemma np_dot_vm_transpose (v : vec3) (m : mat3) :
  np_dot_vm v (transpose m) = mat_vec m v.
Proof.
  unfold np_dot_vm, mat_vec. rewrite transpose_involutive.
  destruct m as [[r0 r1] r2].
  now rewrite (dot3_comm v r0), (dot3_comm v r1), (dot3_comm v r2).
Qed.

(** ** Facts on the dictionaries *)

Lemma Dict_get_set_same {V : Type} (d : Dict.t V) (k : string) (v : V) :
  Dict.get (Dict.set d k v) k = Some v.
Proof.
  induction d as [|[k' v'] d IH]; simpl.
  - now rewrite String.eqb_refl.
  - destruct (String.eqb k k') eqn:E; simpl; rewrite E; auto.
Qed.

Lemma Dict_get_set_other {V : Type} (d : Dict.t V) (k k' : string) (v : V) :
  k <> k' -> Dict.get (Dict.set d k v) k' = Dict.get d k'.
Proof.
  intros Hk. induction d as [|[k0 v0] d IH]; simpl.
  - destruct (String.eqb_spec k' k); congruence.
  - destruct (String.eqb_spec k k0) as [->|Hn]; simpl.
    + destruct (String.eqb_spec k' k0); congruence.
    + now rewrite IH.
Qed.

Lemma Dict_mem_set {V : Type} (d : Dict.t V) (k k' : string) (v : V) :
  Dict.mem d k' = true -> Dict.mem (Dict.set d k v) k' = true.
Proof.
  unfold Dict.mem. destruct (String.eqb_spec k k') as [->|Hn].
  - now rewrite Dict_get_set_same.
  - now rewrite Dict_get_set_other.
Qed.

Lemma Dict_mem_keys {V : Type} (d : Dict.t V) (k : string) :
  In k (Dict.keys d) -> Dict.mem d k = true.
Proof.
  unfold Dict.mem. induction d as [|[k' v'] d IH]; simpl; [tauto|].
  intros [->|H].
  - now rewrite String.eqb_refl.
  - destruct (String.eqb k k'); auto.
Qed.

Lemma Dict_get_keys {V : Type} (d : Dict.t V) (k : string) (v : V) :
  Dict.get d k = Some v -> In k (Dict.keys d).
Proof.
  induction d as [|[k' v'] d IH]; simpl; [discriminate|].
  destruct (String.eqb_spec k k') as [->|Hn]; auto.
Qed.

(** ** Facts on the track graph *)

Lemma neighbours_set_other (graph : Graph.t) (n m : string) (node : Graph.Node) :
  n <> m -> Graph.neighbours (Dict.set graph n node) m = Graph.neighbours graph m.
Proof.
  intros H. unfold Graph.neighbours. now rewrite Dict_get_set_other.
Qed.

Lemma neighbours_set_same (graph : Graph.t) (n : string) (node : Graph.Node) :
  Graph.neighbours (Dict.set graph n node) n = Graph.nbrs node.
Proof.
  unfold Graph.neighbours. now rewrite Dict_get_set_same.
Qed.

Lemma neighbours_add_node (graph : Graph.t) (n m : string) (b : Z) :
  Graph.neighbours (Graph.add_node graph n b) m = Graph.neighbours graph m.
Proof.
  unfold Graph.add_node.
  destruct (String.eqb_spec n m) as [->|Hn].
  - destruct (Dict.get graph m) eqn:E; rewrite neighbours_set_same;
      unfold Graph.neighbours; now rewrite E.
  - destruct (Dict.get graph n); now rewrite neighbours_set_other.
Qed.

Lemma contains_add_node (graph : Graph.t) (n m : string) (b : Z) :
  Graph.contains graph m = true -> Graph.contains (Graph.add_node graph n b) m = true.
Proof.
  unfold Graph.contains, Graph.add_node.
  destruct (Dict.get graph n); apply Dict_mem_set.
Qed.

Lemma neighbours_ensure_node (graph : Graph.t) (n m : string) :
  Graph.neighbours (Graph.ensure_node graph n) m = Graph.neighbours graph m.
Proof.
  unfold Graph.ensure_node, Dict.mem.
  destruct (Dict.get graph n) eqn:E; [reflexivity|].
  destruct (String.eqb_spec n m) as [->|Hn].
  - rewrite neighbours_set_same. unfold Graph.neighbours. now rewrite E.
  - now rewrite neighbours_set_other.
Qed.

Lemma contains_ensure_node (graph : Graph.t) (n m : string) :
  Graph.contains graph m = true -> Graph.contains (Graph.ensure_node graph n) m = true.
Proof.
  unfold Graph.contains, Graph.ensure_node.
  destruct (Dict.mem graph n); [auto | apply Dict_mem_set].
Qed.

Lemma contains_ensure_node_same (graph : Graph.t) (n : string) :
  Graph.contains (Graph.ensure_node graph n) n = true.
Proof.
  unfold Graph.contains, Graph.ensure_node.
  destruct (Dict.mem graph n) eqn:E; [assumption|].
  unfold Dict.mem. now rewrite Dict_get_set_same.
Qed.

Lemma neighbours_set_nbr_other (graph : Graph.t) (u v m : string) (d : Graph.EdgeData) :
  u <> m -> Graph.neighbours (Graph.set_nbr graph u v d) m = Graph.neighbours graph m.
Proof.
  intros H. unfold Graph.set_nbr.
  destruct (Dict.get graph u); [now rewrite neighbours_set_other | reflexivity].
Qed.

Lemma neighbours_set_nbr_same (graph : Graph.t) (u v : string) (d : Graph.EdgeData) :
  Graph.contains graph u = true ->
  Graph.neighbours (Graph.set_nbr graph u v d) u = Dict.set (Graph.neighbours graph u) v d.
Proof.
  unfold Graph.contains, Dict.mem, Graph.set_nbr.
  destruct (Dict.get graph u) eqn:E; [intros _ | discriminate].
  rewrite neighbours_set_same. unfold Graph.neighbours. now rewrite E.
Qed.

Lemma contains_set_nbr (graph : Graph.t) (u v m : string) (d : Graph.EdgeData) :
  Graph.contains graph m = true -> Graph.contains (Graph.set_nbr graph u v d) m = true.
Proof.
  unfold Graph.contains, Graph.set_nbr.
  destruct (Dict.get graph u); [apply Dict_mem_set | auto].
Qed.

Create HintDb graph.
#[local] Hint Resolve contains_add_node contains_ensure_node contains_ensure_node_same
  contains_set_nbr : graph.

(** Adding the edge (u, v) leaves the adjacency of every other node as it is. *)
Lemma neighbours_add_edge_other (graph : Graph.t) (u v m : string) (d : Graph.EdgeData) :
  u <> m -> v <> m ->
  Graph.neighbours (Graph.add_edge graph u v d) m = Graph.neighbours graph m.
Proof.
  intros Hu Hv. unfold Graph.add_edge.
  now rewrite !neighbours_set_nbr_other, !neighbours_ensure_node.
Qed.

Lemma contains_add_edge (graph : Graph.t) (u v m : string) (d : Graph.EdgeData) :
  Graph.contains graph m = true -> Graph.contains (Graph.add_edge graph u v d) m = true.
Proof.
  intros H. unfold Graph.add_edge. auto with graph.
Qed.

(** After [add_edge(u, v, ...)] the edge (u, v) carries the new data. *)
Lemma edge_add_edge_same (graph : Graph.t) (u v : string) (d : Graph.EdgeData) :
  Graph.edge (Graph.add_edge graph u v d) u v = Some d.
Proof.
  unfold Graph.edge, Graph.add_edge.
  set (g2 := Graph.ensure_node (Graph.ensure_node graph u) v).
  assert (Hu : Graph.contains g2 u = true) by (unfold g2; auto with graph).
  assert (Hv : Graph.contains g2 v = true) by (unfold g2; auto with graph).
  destruct (String.eqb_spec v u) as [->|Hn].
  - rewrite neighbours_set_nbr_same by auto with graph.
    apply Dict_get_set_same.
  - rewrite neighbours_set_nbr_other by assumption.
    rewrite neighbours_set_nbr_same by assumption.
    apply Dict_get_set_same.
Qed.

(** [add_edge(u, v, ...)] leaves the edges from [u] to the other nodes. *)
Lemma edge_add_edge_other (graph : Graph.t) (u v w : string) (d : Graph.EdgeData) :
  v <> w -> Graph.edge (Graph.add_edge graph u v d) u w = Graph.edge graph u w.
Proof.
  intros Hw. unfold Graph.edge, Graph.add_edge.
  set (g2 := Graph.ensure_node (Graph.ensure_node graph u) v).
  assert (Hu : Graph.contains g2 u = true) by (unfold g2; auto with graph).
  assert (Hv : Graph.contains g2 v = true) by (unfold g2; auto with graph).
  assert (E : Graph.neighbours g2 u = Graph.neighbours graph u)
    by (unfold g2; now rewrite !neighbours_ensure_node).
  destruct (String.eqb_spec v u) as [->|Hn].
  - rewrite neighbours_set_nbr_same by auto with graph.
    rewrite Dict_get_set_other by assumption.
    rewrite neighbours_set_nbr_same by assumption.
    rewrite Dict_get_set_other by assumption.
    now rewrite E.
  - rewrite neighbours_set_nbr_other by assumption.
    rewrite neighbours_set_nbr_same by assumption.
    rewrite Dict_get_set_other by assumption.
    now rewrite E.
Qed.

Lemma int_of_float_finite (x : float) :
  finite x = true -> int_of_float x = Ok (truncate x).
Proof.
  unfold finite, truncate, int_of_float.
  destruct (Prim2SF x); intros H; try discriminate; reflexivity.
Qed.

Lemma panorama_sampling_eq (interpolation : Interpolation) :
  (if Interpolation_eqb interpolation INTER_AREA then INTER_LINEAR else interpolation)
  = panorama_sampling interpolation.
Proof. now destruct interpolation. Qed.

Lemma is_in_panorama_not_lens (p : string) :
  is_in p ["equirectangular"; "spherical"] = true ->
  is_in p ["perspective"; "brown"; "fisheye"] = false.
Proof.
  unfold is_in. simpl.
  destruct (String.eqb_spec p "equirectangular") as [->|_]; [reflexivity|].
  destruct (String.eqb_spec p "spherical") as [->|_]; [reflexivity|].
  discriminate.
Qed.

(** A disjunction of tests that is false: each of the tests is false, and
    is rewritten so in the goal. *)
Ltac none_of_them H :=
  repeat match type of H with
         | (_ || _)%bool = false =>
             let H' := fresh in
             apply orb_false_iff in H as [H' H]; rewrite ?H'
         end;
  rewrite ?H.

Section Properties.

Context {ext : External}.

(** *** The camera model converter *)

(** C4: for every brown or fisheye camera the converter returns a
    perspective camera with the same id, width and height, with k1, k2 and
    their priors zero, and with a focal length and a focal prior that are the
    arithmetic means of the two focal lengths and of their priors for a brown
    camera, and the focal length and the prior of the camera itself for a
    fisheye camera.  The converters are functions: they read their argument
    and change nothing. *)
Theorem camera_model_converter
    (brown : BrownPerspectiveCamera.t) (fisheye : FisheyeCamera.t) :
  perspective_camera_from_brown brown =
    {| PerspectiveCamera.id := BrownPerspectiveCamera.id brown;
       PerspectiveCamera.width := BrownPerspectiveCamera.width brown;
       PerspectiveCamera.height := BrownPerspectiveCamera.height brown;
       PerspectiveCamera.focal :=
         arithmetic_mean (BrownPerspectiveCamera.focal_x brown)
                         (BrownPerspectiveCamera.focal_y brown);
       PerspectiveCamera.focal_prior :=
         arithmetic_mean (BrownPerspectiveCamera.focal_x_prior brown)
                         (BrownPerspectiveCamera.focal_y_prior brown);
       PerspectiveCamera.k1 := 0%float;
       PerspectiveCamera.k1_prior := 0%float;
       PerspectiveCamera.k2 := 0%float;
       PerspectiveCamera.k2_prior := 0%float |}
  /\ perspective_camera_from_fisheye fisheye =
    {| PerspectiveCamera.id := FisheyeCamera.id fisheye;
       PerspectiveCamera.width := FisheyeCamera.width fisheye;
       PerspectiveCamera.height := FisheyeCamera.height fisheye;
       PerspectiveCamera.focal := FisheyeCamera.focal fisheye;
       PerspectiveCamera.focal_prior := FisheyeCamera.focal_prior fisheye;
       PerspectiveCamera.k1 := 0%float;
       PerspectiveCamera.k1_prior := 0%float;
       PerspectiveCamera.k2 := 0%float;
       PerspectiveCamera.k2_prior := 0%float |}
  /\ projection_type (Perspective (perspective_camera_from_brown brown)) = "perspective"
  /\ projection_type (Perspective (perspective_camera_from_fisheye fisheye)) = "perspective".
Proof.
  repeat split.
Qed.

(** *** The panorama splitter *)

(** C3: for every shot and width W the splitter returns six shots, in the
    order front, left, back, right, top, bottom, that share one perspective
    camera with width = height = W, focal 0.5 and zero distortion and
    priors; the id of a sub-shot is the id of the panorama followed by
    _perspective_view_ and the name of the face, its origin is the origin of
    the panorama, and its rotation is the rotation of the face (the linear
    part of the rotation matrix of its angle and axis) times the rotation
    matrix of the panorama. *)
Theorem panorama_splitter_views (spherical_shot : Shot.t) (width : Z) :
  exists camera : PerspectiveCamera.t,
    PerspectiveCamera.width camera = width
    /\ PerspectiveCamera.height camera = width
    /\ PerspectiveCamera.focal camera = 0.5%float
    /\ PerspectiveCamera.k1 camera = 0%float
    /\ PerspectiveCamera.k2 camera = 0%float
    /\ PerspectiveCamera.k1_prior camera = 0%float
    /\ PerspectiveCamera.k2_prior camera = 0%float
    /\ List.length (perspective_views_of_a_panorama spherical_shot width) = 6%nat
    /\ perspective_views_of_a_panorama spherical_shot width =
       map (fun '(name, angle, axis) =>
              {| Shot.id := Shot.id spherical_shot ++ "_perspective_view_" ++ name;
                 Shot.camera := Perspective camera;
                 Shot.pose :=
                   {| Pose.rotation_matrix :=
                        np_dot_mm (top_left_3x3 (rotation_matrix angle axis))
                          (Pose.rotation_matrix (Shot.pose spherical_shot));
                      Pose.origin := Pose.origin (Shot.pose spherical_shot) |};
                 Shot.metadata := None |})
           cube_faces.
Proof.
  exists (panorama_camera width).
  repeat split.
Qed.

(** *** The resamplers *)

Lemma undistort_perspective_image_eq (image : ndarray) (height width : Z) (rest : list Z)
    (camera : PerspectiveCamera.t) (new_camera : Camera) (interpolation : Interpolation) :
  shape image = height :: width :: rest ->
  undistort_perspective_image image camera new_camera interpolation =
    let maps :=
      cv2_initUndistortRectifyMap
        (get_K_in_pixel_coordinates (Perspective camera) width height)
        [PerspectiveCamera.k1 camera; PerspectiveCamera.k2 camera; 0%float; 0%float]
        (get_K_in_pixel_coordinates new_camera width height)
        (width, height) in
    Ok (cv2_remap image (fst maps) (snd maps) interpolation BORDER_CONSTANT).
Proof.
  intros H. unfold undistort_perspective_image, height_width. rewrite H. simpl.
  now destruct (cv2_initUndistortRectifyMap _ _ _ _).
Qed.

Lemma undistort_brown_image_eq (image : ndarray) (height width : Z) (rest : list Z)
    (camera : BrownPerspectiveCamera.t) (new_camera : Camera)
    (interpolation : Interpolation) :
  shape image = height :: width :: rest ->
  undistort_brown_image image camera new_camera interpolation =
    let maps :=
      cv2_initUndistortRectifyMap
        (get_K_in_pixel_coordinates (Brown camera) width height)
        [BrownPerspectiveCamera.k1 camera; BrownPerspectiveCamera.k2 camera;
         BrownPerspectiveCamera.p1 camera; BrownPerspectiveCamera.p2 camera;
         BrownPerspectiveCamera.k3 camera]
        (get_K_in_pixel_coordinates new_camera width height)
        (width, height) in
    Ok (cv2_remap image (fst maps) (snd maps) interpolation BORDER_CONSTANT).
Proof.
  intros H. unfold undistort_brown_image, height_width. rewrite H. simpl.
  now destruct (cv2_initUndistortRectifyMap _ _ _ _).
Qed.

Lemma undistort_fisheye_image_eq (image : ndarray) (height width : Z) (rest : list Z)
    (camera : FisheyeCamera.t) (new_camera : Camera) (interpolation : Interpolation) :
  shape image = height :: width :: rest ->
  undistort_fisheye_image image camera new_camera interpolation =
    let maps :=
      cv2_fisheye_initUndistortRectifyMap
        (get_K_in_pixel_coordinates (Fisheye camera) width height)
        [FisheyeCamera.k1 camera; FisheyeCamera.k2 camera; 0%float; 0%float]
        (get_K_in_pixel_coordinates new_camera width height)
        (width, height) in
    Ok (cv2_remap image (fst maps) (snd maps) interpolation BORDER_CONSTANT).
Proof.
  intros H. unfold undistort_fisheye_image, height_width. rewrite H. simpl.
  now destruct (cv2_fisheye_initUndistortRectifyMap _ _ _ _).
Qed.

(** The lens path of [undistort_image]: the projection type of the camera
    of the shot chooses the function, and the result is scaled. *)
Lemma undistort_image_lens (shot ushot : Shot.t) (ushots : list Shot.t) (data : DataSet.t)
    (original : ndarray) (interpolation : Interpolation) (image_scale : number) :
  let finish (r : result ndarray) :=
    undistorted <- r ;;
    scaled <- scale_image undistorted image_scale ;;
    Ok (Some [(ById (Shot.id shot), scaled)]) in
  let run := undistort_image shot (ushot :: ushots) data (Some original)
               interpolation image_scale in
  (forall camera, Shot.camera shot = Perspective camera ->
     run = finish (undistort_perspective_image original camera
                     (Shot.camera ushot) interpolation))
  /\ (forall camera, Shot.camera shot = Fisheye camera ->
     run = finish (undistort_fisheye_image original camera
                     (Shot.camera ushot) interpolation))
  /\ (forall camera, Shot.camera shot = Brown camera ->
     run = finish (undistort_brown_image original camera
                     (Shot.camera ushot) interpolation)).
Proof.
  repeat split; intros camera E; unfold undistort_image; rewrite E; reflexivity.
Qed.

(** C7: the vector of distortion coefficients given to the computation of
    the remap is (k1, k2, 0, 0) for a perspective and for a fisheye camera
    and (k1, k2, p1, p2, k3) for a brown camera, and the two calibration
    matrices are those of the source camera and of the new camera at the
    width and the height of the raster.  [undistort_image] calls the
    function of the projection type of the camera of the shot. *)
Theorem lens_distortion_coefficients (image : ndarray) (height width : Z) (rest : list Z)
    (new_camera : Camera) (interpolation : Interpolation) :
  shape image = height :: width :: rest ->
  (forall (shot ushot : Shot.t) ushots data image_scale,
     Shot.camera ushot = new_camera ->
     let finish (r : result ndarray) :=
       undistorted <- r ;;
       scaled <- scale_image undistorted image_scale ;;
       Ok (Some [(ById (Shot.id shot), scaled)]) in
     let run := undistort_image shot (ushot :: ushots) data (Some image)
                  interpolation image_scale in
     (forall camera, Shot.camera shot = Perspective camera ->
        run = finish (undistort_perspective_image image camera new_camera interpolation))
     /\ (forall camera, Shot.camera shot = Fisheye camera ->
        run = finish (undistort_fisheye_image image camera new_camera interpolation))
     /\ (forall camera, Shot.camera shot = Brown camera ->
        run = finish (undistort_brown_image image camera new_camera interpolation)))
  /\ (forall camera : PerspectiveCamera.t,
     undistort_perspective_image image camera new_camera interpolation =
       let maps :=
         cv2_initUndistortRectifyMap
           (get_K_in_pixel_coordinates (Perspective camera) width height)
           [PerspectiveCamera.k1 camera; PerspectiveCamera.k2 camera; 0%float; 0%float]
           (get_K_in_pixel_coordinates new_camera width height)
           (width, height) in
       Ok (cv2_remap image (fst maps) (snd maps) interpolation BORDER_CONSTANT))
  /\ (forall camera : FisheyeCamera.t,
     undistort_fisheye_image image camera new_camera interpolation =
       let maps :=
         cv2_fisheye_initUndistortRectifyMap
           (get_K_in_pixel_coordinates (Fisheye camera) width height)
           [FisheyeCamera.k1 camera; FisheyeCamera.k2 camera; 0%float; 0%float]
           (get_K_in_pixel_coordinates new_camera width height)
           (width, height) in
       Ok (cv2_remap image (fst maps) (snd maps) interpolation BORDER_CONSTANT))
  /\ (forall camera : BrownPerspectiveCamera.t,
     undistort_brown_image image camera new_camera interpolation =
       let maps :=
         cv2_initUndistortRectifyMap
           (get_K_in_pixel_coordinates (Brown camera) width height)
           [BrownPerspectiveCamera.k1 camera; BrownPerspectiveCamera.k2 camera;
            BrownPerspectiveCamera.p1 camera; BrownPerspectiveCamera.p2 camera;
            BrownPerspectiveCamera.k3 camera]
           (get_K_in_pixel_coordinates new_camera width height)
           (width, height) in
       Ok (cv2_remap image (fst maps) (snd maps) interpolation BORDER_CONSTANT)).
Proof.
  intros H. split; [|repeat split; intros camera].
  - intros shot ushot ushots data image_scale <-.
    apply undistort_image_lens.
  - now apply undistort_perspective_image_eq with (rest := rest).
  - now apply undistort_fisheye_image_eq with (rest := rest).
  - now apply undistort_brown_image_eq with (rest := rest).
Qed.

(** A lens resampler that returns gives the remap of the raster with the
    interpolation of its caller. *)
Lemma undistort_perspective_image_remap (image : ndarray) (camera : PerspectiveCamera.t)
    (new_camera : Camera) (interpolation : Interpolation) (undistorted : ndarray) :
  undistort_perspective_image image camera new_camera interpolation = Ok undistorted ->
  exists map1 map2,
    undistorted = cv2_remap image map1 map2 interpolation BORDER_CONSTANT.
Proof.
  unfold undistort_perspective_image.
  destruct (height_width image) as [[height width]|]; simpl; [|discriminate].
  destruct (cv2_initUndistortRectifyMap _ _ _ _) as [map1 map2].
  intros H. injection H as <-. eauto.
Qed.

Lemma undistort_brown_image_remap (image : ndarray) (camera : BrownPerspectiveCamera.t)
    (new_camera : Camera) (interpolation : Interpolation) (undistorted : ndarray) :
  undistort_brown_image image camera new_camera interpolation = Ok undistorted ->
  exists map1 map2,
    undistorted = cv2_remap image map1 map2 interpolation BORDER_CONSTANT.
Proof.
  unfold undistort_brown_image.
  destruct (height_width image) as [[height width]|]; simpl; [|discriminate].
  destruct (cv2_initUndistortRectifyMap _ _ _ _) as [map1 map2].
  intros H. injection H as <-. eauto.
Qed.

Lemma undistort_fisheye_image_remap (image : ndarray) (camera : FisheyeCamera.t)
    (new_camera : Camera) (interpolation : Interpolation) (undistorted : ndarray) :
  undistort_fisheye_image image camera new_camera interpolation = Ok undistorted ->
  exists map1 map2,
    undistorted = cv2_remap image map1 map2 interpolation BORDER_CONSTANT.
Proof.
  unfold undistort_fisheye_image.
  destruct (height_width image) as [[height width]|]; simpl; [|discriminate].
  destruct (cv2_fisheye_initUndistortRectifyMap _ _ _ _) as [map1 map2].
  intros H. injection H as <-. eauto.
Qed.

(** The renderer of a view of a panorama returns for a view whose camera
    has a height and a width and for a raster of two dimensions or more,
    and what it returns is the remap of the raster, with the interpolation
    of its caller and wrapping at the border, through two maps of the
    height and the width of the view. *)
Lemma render_perspective_view_of_a_panorama_eq (image : ndarray)
    (panoshot perspectiveshot : Shot.t) (interpolation : Interpolation)
    (height width image_height image_width : Z) (channels : list Z) :
  camera_height (Shot.camera perspectiveshot) = Ok height ->
  camera_width (Shot.camera perspectiveshot) = Ok width ->
  shape image = image_height :: image_width :: channels ->
  exists x y,
    fshape x = [height; width] /\ fshape y = [height; width]
    /\ render_perspective_view_of_a_panorama image panoshot perspectiveshot interpolation
       = Ok (cv2_remap image x y interpolation BORDER_WRAP).
Proof.
  intros Hh Hw Hs. unfold render_perspective_view_of_a_panorama.
  rewrite Hh, Hw, Hs. cbn [bind]. eexists. eexists.
  split; [|split; [|reflexivity]]; reflexivity.
Qed.

Lemma render_perspective_view_of_a_panorama_remap (image : ndarray)
    (panoshot perspectiveshot : Shot.t) (interpolation : Interpolation)
    (undistorted : ndarray) :
  render_perspective_view_of_a_panorama image panoshot perspectiveshot interpolation
  = Ok undistorted ->
  exists x y, undistorted = cv2_remap image x y interpolation BORDER_WRAP.
Proof.
  unfold render_perspective_view_of_a_panorama.
  destruct (camera_height (Shot.camera perspectiveshot)) as [height|];
    cbn [bind]; [|discriminate].
  destruct (camera_width (Shot.camera perspectiveshot)) as [width|];
    cbn [bind]; [|discriminate].
  destruct (shape image) as [|image_height [|image_width channels]];
    cbn [bind]; try discriminate.
  intros H. injection H as <-. eauto.
Qed.

(** What every result of a [mapM] that ends well satisfies. *)
Lemma mapM_Forall {A B : Type} (f : A -> result B) (P : B -> Prop) (l : list A) :
  (forall a b, In a l -> f a = Ok b -> P b) ->
  forall bs, mapM f l = Ok bs -> Forall P bs.
Proof.
  induction l as [|a l IH]; intros Hf bs H; simpl in H.
  - injection H as <-. constructor.
  - destruct (f a) as [b|] eqn:Hb; simpl in H; [|discriminate].
    destruct (mapM f l) as [bs'|]; simpl in H; [|discriminate].
    injection H as <-. constructor.
    + apply (Hf a); [now left | exact Hb].
    + apply IH; [|reflexivity]. intros a' b' Hin. apply Hf. now right.
Qed.

(** The panorama path of [undistort_image]. *)
Lemma undistort_image_panorama (shot : Shot.t) (ushots : list Shot.t) (data : DataSet.t)
    (original : ndarray) (interpolation : Interpolation) (image_scale : number) :
  is_in (projection_type (Shot.camera shot)) ["equirectangular"; "spherical"] = true ->
  undistort_image shot ushots data (Some original) interpolation image_scale =
    (image <- cv2_resize original
                (4 * DataSet.depthmap_resolution data,
                 4 * DataSet.depthmap_resolution data / 2) interpolation ;;
     res <- mapM (fun subshot =>
                    undistorted <- render_perspective_view_of_a_panorama
                                     image shot subshot (panorama_sampling interpolation) ;;
                    scaled <- scale_image undistorted image_scale ;;
                    Ok (ByShot subshot, scaled))
                 ushots ;;
     Ok (Some res)).
Proof.
  intros Hpano. unfold undistort_image.
  rewrite (is_in_panorama_not_lens _ Hpano), Hpano.
  now rewrite panorama_sampling_eq.
Qed.

(** Every raster that [undistort_image] returns is a raster sampled from
    the original with the interpolation of the caller, and then scaled by
    [scale_image] with the scale of the caller. *)
Lemma undistort_image_rasters (shot : Shot.t) (ushots : list Shot.t) (data : DataSet.t)
    (original : ndarray) (interpolation : Interpolation) (image_scale : number)
    (rasters : list (ResKey * ndarray)) :
  undistort_image shot ushots data (Some original) interpolation image_scale
  = Ok (Some rasters) ->
  Forall (fun '(key, raster) =>
            exists unscaled,
              sampled shot data original interpolation key unscaled
              /\ scale_image unscaled image_scale = Ok raster)
         rasters.
Proof.
  destruct (is_in (projection_type (Shot.camera shot))
              ["perspective"; "brown"; "fisheye"]) eqn:Hlens.
  - unfold undistort_image. rewrite Hlens.
    destruct ushots as [|ushot ushots]; cbn [bind]; [discriminate|].
    match goal with
    | |- bind ?r _ = _ -> _ =>
        assert (Hremap : forall undistorted, r = Ok undistorted ->
                  exists map1 map2,
                    undistorted
                    = cv2_remap original map1 map2 interpolation BORDER_CONSTANT);
        [|destruct r as [undistorted|]; cbn [bind]; [|discriminate]]
    end.
    { intros undistorted.
      destruct (String.eqb _ "perspective").
      - destruct (as_perspective _); cbn [bind]; [|discriminate].
        apply undistort_perspective_image_remap.
      - destruct (String.eqb _ "brown").
        + destruct (as_brown _ _); cbn [bind]; [|discriminate].
          apply undistort_brown_image_remap.
        + destruct (as_fisheye _ _); cbn [bind]; [|discriminate].
          apply undistort_fisheye_image_remap. }
    destruct (scale_image undistorted image_scale) as [scaled|] eqn:Hscale;
      cbn [bind]; [|discriminate].
    intros H. injection H as <-. constructor; [|constructor].
    exists undistorted. split; [|exact Hscale].
    left. split; [exact Hlens|]. split; [reflexivity|]. now apply Hremap.
  - destruct (is_in (projection_type (Shot.camera shot))
                ["equirectangular"; "spherical"]) eqn:Hpano.
    + rewrite (undistort_image_panorama _ _ _ _ _ _ Hpano).
      destruct (cv2_resize original _ interpolation) as [image|] eqn:Hresize;
        cbn [bind]; [|discriminate].
      match goal with
      | |- bind (mapM ?f ushots) _ = _ -> _ =>
          destruct (mapM f ushots) as [res|] eqn:Hres; cbn [bind]; [|discriminate]
      end.
      intros H. injection H as <-.
      refine (mapM_Forall _ _ ushots _ res Hres).
      intros subshot [key raster] _.
      destruct (render_perspective_view_of_a_panorama image shot subshot
                  (panorama_sampling interpolation)) as [undistorted|] eqn:Hrender;
        cbn [bind]; [|discriminate].
      destruct (scale_image undistorted image_scale) as [scaled|] eqn:Hscale;
        cbn [bind]; [|discriminate].
      intros H. injection H as <- <-.
      destruct (render_perspective_view_of_a_panorama_remap _ _ _ _ _ Hrender)
        as [x [y ->]].
      eexists. split; [|exact Hscale].
      right. split; [exact Hpano|]. exists image, subshot, x, y. auto.
    + unfold undistort_image. rewrite Hlens, Hpano. discriminate.
Qed.

(** C5: for a panorama shot the source raster is first resized to the
    width 4 * subshot-width and the height width / 2 with the interpolation
    of the caller, and nothing is sampled when that resize raises.  Each
    sub-view is then sampled from the resized raster by a remap that wraps
    at the border, with the linear interpolation when the caller asked for
    the area interpolation and with the interpolation of the caller
    otherwise: the renderer gives the interpolation that it receives to the
    remap.  The lens path gives the interpolation of the caller to the remap
    as it is, the area interpolation too. *)
Theorem panorama_resampling_interpolation (shot : Shot.t) (undistorted_shots : list Shot.t)
    (data : DataSet.t) (original : ndarray) (interpolation : Interpolation)
    (image_scale : number) (height width : Z) (rest : list Z) :
  is_in (projection_type (Shot.camera shot)) ["equirectangular"; "spherical"] = true ->
  shape original = height :: width :: rest ->
  let subshot_width := DataSet.depthmap_resolution data in
  let resized :=
    cv2_resize original (4 * subshot_width, (4 * subshot_width) / 2) interpolation in
  undistort_image shot undistorted_shots data (Some original) interpolation image_scale =
    (image <- resized ;;
     res <- mapM (fun subshot =>
                    undistorted <- render_perspective_view_of_a_panorama
                                     image shot subshot (panorama_sampling interpolation) ;;
                    scaled <- scale_image undistorted image_scale ;;
                    Ok (ByShot subshot, scaled))
                 undistorted_shots ;;
     Ok (Some res))
  /\ (forall image subshot sampling view_height view_width image_height image_width
             channels,
        camera_height (Shot.camera subshot) = Ok view_height ->
        camera_width (Shot.camera subshot) = Ok view_width ->
        shape image = image_height :: image_width :: channels ->
        exists x y,
          fshape x = [view_height; view_width] /\ fshape y = [view_height; view_width]
          /\ render_perspective_view_of_a_panorama image shot subshot sampling
             = Ok (cv2_remap image x y sampling BORDER_WRAP))
  /\ (forall res,
        undistort_image shot undistorted_shots data (Some original) interpolation
          image_scale = Ok (Some res) ->
        exists image,
          resized = Ok image
          /\ Forall (fun '(key, raster) =>
                       exists subshot x y,
                         key = ByShot subshot
                         /\ scale_image
                              (cv2_remap image x y (panorama_sampling interpolation)
                                 BORDER_WRAP)
                              image_scale = Ok raster)
                    res)
  /\ panorama_sampling INTER_AREA = INTER_LINEAR
  /\ (interpolation <> INTER_AREA -> panorama_sampling interpolation = interpolation)
  /\ (forall camera new_camera, exists map1 map2,
        undistort_perspective_image original camera new_camera INTER_AREA =
          Ok (cv2_remap original map1 map2 INTER_AREA BORDER_CONSTANT))
  /\ (forall camera new_camera, exists map1 map2,
        undistort_brown_image original camera new_camera INTER_AREA =
          Ok (cv2_remap original map1 map2 INTER_AREA BORDER_CONSTANT))
  /\ (forall camera new_camera, exists map1 map2,
        undistort_fisheye_image original camera new_camera INTER_AREA =
          Ok (cv2_remap original map1 map2 INTER_AREA BORDER_CONSTANT)).
Proof.
  intros Hpano Hshape subshot_width resized.
  split; [|split; [|split; [|split; [|split; [|repeat split]]]]].
  - exact (undistort_image_panorama _ _ _ _ _ _ Hpano).
  - intros image subshot sampling view_height view_width image_height image_width
      channels Hh Hw Hs.
    exact (render_perspective_view_of_a_panorama_eq image shot subshot sampling
             _ _ _ _ _ Hh Hw Hs).
  - intros res Hres.
    pose proof (undistort_image_rasters _ _ _ _ _ _ _ Hres) as Hrasters.
    rewrite (undistort_image_panorama _ _ _ _ _ _ Hpano) in Hres.
    fold subshot_width in Hres. fold resized in Hres.
    destruct resized as [image|] eqn:Hresized; cbn [bind] in Hres; [|discriminate].
    exists image. split; [reflexivity|].
    refine (Forall_impl _ _ Hrasters). intros [key raster] [unscaled [Hsampled Hscale]].
    destruct Hsampled as [[Hlens _]|[_ [image' [subshot [x [y [Himage [-> ->]]]]]]]].
    + rewrite (is_in_panorama_not_lens _ Hpano) in Hlens. discriminate.
    + fold subshot_width in Himage. fold resized in Himage.
      rewrite Hresized in Himage. injection Himage as <-.
      exists subshot, x, y. split; [reflexivity | exact Hscale].
  - reflexivity.
  - now destruct interpolation.
  - intros camera new_camera. eexists. eexists.
    rewrite (undistort_perspective_image_eq _ _ _ _ _ _ _ Hshape). reflexivity.
  - intros camera new_camera. eexists. eexists.
    rewrite (undistort_brown_image_eq _ _ _ _ _ _ _ Hshape). reflexivity.
  - intros camera new_camera. eexists. eexists.
    rewrite (undistort_fisheye_image_eq _ _ _ _ _ _ _ Hshape). reflexivity.
Qed.

(** [int(n * factor)] for a dimension [n] of the image. *)
Lemma int_int_mul (n : Z) (factor : number) :
  scalable n factor = true -> int (int_mul n factor) = Ok (scaled_dimension n factor).
Proof.
  destruct factor as [z|f]; simpl; [reflexivity|].
  apply int_of_float_finite.
Qed.


(** *** The track graph projector *)

(** C8: when the id of the panorama shot is not a node of the track graph,
    the projector returns without an exception and leaves the graph as it
    is: no node and no edge is added. *)
Theorem panorama_not_in_graph (graph : Graph.t) (panoshot perspectiveshot : Shot.t) :
  Graph.contains graph (Shot.id panoshot) = false ->
  add_subshot_tracks graph panoshot perspectiveshot = (graph, Ok tt).
Proof.
  intros H. unfold add_subshot_tracks. now rewrite H.
Qed.

Lemma getitem_contains (graph : Graph.t) (n : string) :
  Graph.contains graph n = true ->
  Graph.getitem graph n = Ok (Graph.neighbours graph n).
Proof.
  unfold Graph.contains, Dict.mem, Graph.getitem, Dict.getitem, Graph.neighbours.
  destruct (Dict.get graph n); [reflexivity | discriminate].
Qed.

Lemma add_subshot_track_eq (panoshot perspectiveshot : Shot.t) (graph : Graph.t)
    (track : string) (edge : Graph.EdgeData) :
  Graph.contains graph (Shot.id panoshot) = true ->
  Dict.get (Graph.neighbours graph (Shot.id panoshot)) track = Some edge ->
  add_subshot_track panoshot perspectiveshot graph track =
    Ok match subshot_observation panoshot perspectiveshot edge with
       | Some d => Graph.add_edge graph (Shot.id perspectiveshot) track d
       | None => graph
       end.
Proof.
  intros Hc He. unfold add_subshot_track.
  rewrite (getitem_contains _ _ Hc). simpl.
  unfold Dict.getitem. rewrite He. simpl.
  unfold subshot_observation, visible.
  destruct (snd (rotated_bearing_of panoshot perspectiveshot (Graph.feature edge)) <=? 0)%float;
    simpl; [reflexivity|].
  match goal with |- context [if ?b then Ok graph else _] => destruct b end; reflexivity.
Qed.

Lemma is_in_cons (t track : string) (tracks : list string) :
  is_in t (track :: tracks) = String.eqb t track || is_in t tracks.
Proof. reflexivity. Qed.

Lemma is_in_In (t : string) (tracks : list string) :
  In t tracks -> is_in t tracks = true.
Proof.
  intros H. unfold is_in. apply existsb_exists. exists t. split; [assumption|].
  apply String.eqb_refl.
Qed.

(** The invariant of the loop: the adjacency of the panorama stays as it
    was, so the iterator never sees another size, and the edges of the
    sub-shot are those of the observations that passed the test. *)
Lemma add_subshot_tracks_loop_spec (panoshot perspectiveshot : Shot.t)
    (nbrs : Dict.t Graph.EdgeData) :
  Shot.id perspectiveshot <> Shot.id panoshot ->
  forall (tracks : list string) (graph : Graph.t),
    (forall t, In t tracks ->
               t <> Shot.id panoshot /\ exists e, Dict.get nbrs t = Some e) ->
    Graph.contains graph (Shot.id panoshot) = true ->
    Graph.neighbours graph (Shot.id panoshot) = nbrs ->
    exists graph',
      add_subshot_tracks_loop panoshot perspectiveshot tracks (Dict.len nbrs) graph
      = (graph', Ok tt)
      /\ forall t,
           Graph.edge graph' (Shot.id perspectiveshot) t =
             match (if is_in t tracks
                    then projected panoshot perspectiveshot nbrs t else None) with
             | Some d => Some d
             | None => Graph.edge graph (Shot.id perspectiveshot) t
             end.
Proof.
  intros Hsub tracks.
  induction tracks as [|track tracks IH]; intros graph Htracks Hc Hn.
  - exists graph. split; reflexivity.
  - destruct (Htracks track (or_introl eq_refl)) as [Hne [e He]].
    cbn [add_subshot_tracks_loop]. rewrite <- Hn in He.
    rewrite (add_subshot_track_eq _ _ _ _ _ Hc He).
    set (graph1 := match subshot_observation panoshot perspectiveshot e with
                   | Some d => Graph.add_edge graph (Shot.id perspectiveshot) track d
                   | None => graph
                   end).
    assert (Hn1 : Graph.neighbours graph1 (Shot.id panoshot) = nbrs).
    { unfold graph1. destruct (subshot_observation panoshot perspectiveshot e); [|assumption].
      now rewrite neighbours_add_edge_other. }
    assert (Hc1 : Graph.contains graph1 (Shot.id panoshot) = true).
    { unfold graph1. destruct (subshot_observation panoshot perspectiveshot e); [|assumption].
      now apply contains_add_edge. }
    rewrite Hn1, Nat.eqb_refl.
    destruct (IH graph1) as [graph' [Hrun Hedges]]; auto.
    { intros t Ht. apply Htracks. now right. }
    exists graph'. split; [assumption|].
    intros t. rewrite Hedges, is_in_cons.
    assert (Hproj : projected panoshot perspectiveshot nbrs track
                    = subshot_observation panoshot perspectiveshot e).
    { unfold projected. rewrite <- Hn. now rewrite He. }
    destruct (String.eqb_spec t track) as [->|Ht]; simpl.
    + rewrite Hproj. unfold graph1.
      destruct (is_in track tracks);
        destruct (subshot_observation panoshot perspectiveshot e) as [d|];
        try reflexivity.
      apply edge_add_edge_same.
    + assert (E : Graph.edge graph1 (Shot.id perspectiveshot) t
                  = Graph.edge graph (Shot.id perspectiveshot) t).
      { unfold graph1.
        destruct (subshot_observation panoshot perspectiveshot e); [|reflexivity].
        apply edge_add_edge_other. congruence. }
      now rewrite E.
Qed.

(** What [add_subshot_tracks] does to the edges of the sub-shot, for a
    sub-shot that is not the panorama and a panorama that is not its own
    neighbour. *)
Lemma add_subshot_tracks_spec (graph : Graph.t) (panoshot perspectiveshot : Shot.t) :
  Shot.id perspectiveshot <> Shot.id panoshot ->
  Graph.edge graph (Shot.id panoshot) (Shot.id panoshot) = None ->
  exists graph',
    add_subshot_tracks graph panoshot perspectiveshot = (graph', Ok tt)
    /\ forall t,
         Graph.edge graph' (Shot.id perspectiveshot) t =
           match projected panoshot perspectiveshot
                   (Graph.neighbours graph (Shot.id panoshot)) t with
           | Some d => Some d
           | None => Graph.edge graph (Shot.id perspectiveshot) t
           end.
Proof.
  intros Hsub Hloop. unfold add_subshot_tracks.
  destruct (Graph.contains graph (Shot.id panoshot)) eqn:Hc; simpl.
  - set (graph0 := Graph.add_node graph (Shot.id perspectiveshot) 0).
    assert (Hc0 : Graph.contains graph0 (Shot.id panoshot) = true)
      by now apply contains_add_node.
    assert (Hn0 : Graph.neighbours graph0 (Shot.id panoshot)
                  = Graph.neighbours graph (Shot.id panoshot))
      by apply neighbours_add_node.
    rewrite (getitem_contains _ _ Hc0), Hn0.
    set (nbrs := Graph.neighbours graph (Shot.id panoshot)) in *.
    destruct (add_subshot_tracks_loop_spec panoshot perspectiveshot nbrs Hsub
                (Dict.keys nbrs) graph0) as [graph' [Hrun Hedges]]; auto.
    { intros t Ht. split.
      - intros ->. apply Dict_mem_keys in Ht. unfold Dict.mem in Ht.
        unfold Graph.edge in Hloop. fold nbrs in Hloop. now rewrite Hloop in Ht.
      - apply Dict_mem_keys in Ht. unfold Dict.mem in Ht.
        destruct (Dict.get nbrs t) as [e|]; [now exists e | discriminate]. }
    exists graph'. split; [assumption|].
    intros t. rewrite Hedges.
    unfold Graph.edge at 1. unfold graph0. rewrite neighbours_add_node.
    fold (Graph.edge graph (Shot.id perspectiveshot) t).
    destruct (is_in t (Dict.keys nbrs)) eqn:Hin; [reflexivity|].
    unfold projected. destruct (Dict.get nbrs t) as [e|] eqn:He; [|reflexivity].
    apply Dict_get_keys, is_in_In in He. congruence.
  - exists graph. split; [reflexivity|].
    intros t. unfold projected, Graph.neighbours.
    unfold Graph.contains, Dict.mem in Hc.
    destruct (Dict.get graph (Shot.id panoshot)); [discriminate | reflexivity].
Qed.

Lemma visible_false (b : vec3) (p : vec2) :
  (snd b <=? 0)%float = true
  \/ (fst p <? -0.5)%float = true \/ (0.5 <? fst p)%float = true
  \/ (snd p <? -0.5)%float = true \/ (0.5 <? snd p)%float = true ->
  visible b p = false.
Proof.
  unfold visible, gtb.
  intros [H|[H|[H|[H|H]]]]; rewrite H; simpl;
    rewrite ?orb_true_r, ?andb_false_r; reflexivity.
Qed.

Lemma visible_true (b : vec3) (p : vec2) :
  visible b p = true ->
  (snd b <=? 0)%float = false
  /\ (fst p <? -0.5)%float = false /\ (0.5 <? fst p)%float = false
  /\ (snd p <? -0.5)%float = false /\ (0.5 <? snd p)%float = false.
Proof.
  unfold visible, gtb. intros H.
  apply andb_true_iff in H as [H1 H2].
  apply negb_true_iff in H1. apply negb_true_iff in H2.
  apply orb_false_iff in H2 as [H2 H5].
  apply orb_false_iff in H2 as [H2 H4].
  apply orb_false_iff in H2 as [H2 H3].
  auto.
Qed.

(** The bearing that the source rotates with [np.dot(bearing, rotation.T)]
    is the product of the rotation [R_sub . R_pano^T] and the bearing. *)
Lemma rotated_bearing_of_eq (panoshot perspectiveshot : Shot.t) (feature : vec2) :
  rotated_bearing_of panoshot perspectiveshot feature =
    mat_vec (np_dot_mm (Pose.get_rotation_matrix (Shot.pose perspectiveshot))
                       (transpose (Pose.get_rotation_matrix (Shot.pose panoshot))))
            (pixel_bearing (Shot.camera panoshot) feature).
Proof.
  unfold rotated_bearing_of. apply np_dot_vm_transpose.
Qed.

(** C2: an observation of the panorama whose bearing, rotated into the frame
    of the sub-shot, has a forward component <= 0, or whose projection
    through the camera of the sub-shot has a coordinate below -0.5 or above
    0.5, adds no edge (sub-shot, track).  So every edge that the projector
    adds comes from an observation that passed the two tests: its forward
    component is > 0 and both of its coordinates are in [-0.5, 0.5], where
    these are numbers.  The shots are a panorama and one of its sub-shots
    in a bipartite graph: their ids differ, and the panorama is not its own
    neighbour. *)
Theorem visibility_of_added_edges (graph : Graph.t) (panoshot perspectiveshot : Shot.t) :
  Shot.id perspectiveshot <> Shot.id panoshot ->
  Graph.edge graph (Shot.id panoshot) (Shot.id panoshot) = None ->
  exists graph',
    add_subshot_tracks graph panoshot perspectiveshot = (graph', Ok tt)
    /\ (forall track e,
          Graph.edge graph (Shot.id panoshot) track = Some e ->
          let b := rotated_bearing_of panoshot perspectiveshot (Graph.feature e) in
          let p := project (Shot.camera perspectiveshot) b in
          (snd b <=? 0)%float = true
          \/ (fst p <? -0.5)%float = true \/ (0.5 <? fst p)%float = true
          \/ (snd p <? -0.5)%float = true \/ (0.5 <? snd p)%float = true ->
          Graph.edge graph' (Shot.id perspectiveshot) track
          = Graph.edge graph (Shot.id perspectiveshot) track)
    /\ (forall track d,
          Graph.edge graph' (Shot.id perspectiveshot) track = Some d ->
          Graph.edge graph (Shot.id perspectiveshot) track <> Some d ->
          exists e,
            Graph.edge graph (Shot.id panoshot) track = Some e
            /\ let b := rotated_bearing_of panoshot perspectiveshot (Graph.feature e) in
               let p := project (Shot.camera perspectiveshot) b in
               Graph.feature d = p
               /\ (snd b <=? 0)%float = false
               /\ (fst p <? -0.5)%float = false /\ (0.5 <? fst p)%float = false
               /\ (snd p <? -0.5)%float = false /\ (0.5 <? snd p)%float = false
               /\ (is_nan (snd b) = false -> (0 <? snd b)%float = true)
               /\ (is_nan (fst p) = false ->
                   (-0.5 <=? fst p)%float = true /\ (fst p <=? 0.5)%float = true)
               /\ (is_nan (snd p) = false ->
                   (-0.5 <=? snd p)%float = true /\ (snd p <=? 0.5)%float = true)).
Proof.
  intros Hsub Hloop.
  destruct (add_subshot_tracks_spec graph panoshot perspectiveshot Hsub Hloop)
    as [graph' [Hrun Hedges]].
  exists graph'. split; [assumption|]. split.
  - intros track e He b p Hout.
    rewrite Hedges. unfold projected. unfold Graph.edge in He. rewrite He.
    unfold subshot_observation. fold b. fold p.
    now rewrite (visible_false b p Hout).
  - intros track d Hd Hnew.
    rewrite Hedges in Hd. unfold projected in Hd.
    destruct (Dict.get (Graph.neighbours graph (Shot.id panoshot)) track) as [e|] eqn:He;
      [|congruence].
    exists e. split; [exact He|].
    unfold subshot_observation in Hd.
    set (b := rotated_bearing_of panoshot perspectiveshot (Graph.feature e)) in *.
    set (p := project (Shot.camera perspectiveshot) b) in *.
    destruct (visible b p) eqn:Hv; [|congruence].
    injection Hd as <-. simpl.
    destruct (visible_true b p Hv) as [Hz [Hx1 [Hx2 [Hy1 Hy2]]]].
    repeat split; try assumption.
    + intros Hnan. now apply leb_false_ltb.
    + now apply ltb_false_leb.
    + now apply ltb_false_leb.
    + now apply ltb_false_leb.
    + now apply ltb_false_leb.
Qed.

(** C6: for an observation of the panorama that passes the visibility test,
    the edge (sub-shot, track) of the graph that the projector leaves
    carries the projection, through the camera of the sub-shot, of the
    bearing of the observation rotated by R = R_sub . R_pano^T, and the
    feature id and the colour of the observation. *)
Theorem projected_edge_payload (graph : Graph.t) (panoshot perspectiveshot : Shot.t)
    (track : string) (e : Graph.EdgeData) :
  Shot.id perspectiveshot <> Shot.id panoshot ->
  Graph.edge graph (Shot.id panoshot) (Shot.id panoshot) = None ->
  Graph.edge graph (Shot.id panoshot) track = Some e ->
  let R := np_dot_mm (Pose.get_rotation_matrix (Shot.pose perspectiveshot))
                     (transpose (Pose.get_rotation_matrix (Shot.pose panoshot))) in
  let b := mat_vec R (pixel_bearing (Shot.camera panoshot) (Graph.feature e)) in
  let p := project (Shot.camera perspectiveshot) b in
  visible b p = true ->
  exists graph',
    add_subshot_tracks graph panoshot perspectiveshot = (graph', Ok tt)
    /\ Graph.edge graph' (Shot.id perspectiveshot) track =
         Some {| Graph.feature := p;
                 Graph.feature_id := Graph.feature_id e;
                 Graph.feature_color := Graph.feature_color e |}.
Proof.
  intros Hsub Hloop He R b p Hv.
  destruct (add_subshot_tracks_spec graph panoshot perspectiveshot Hsub Hloop)
    as [graph' [Hrun Hedges]].
  exists graph'. split; [assumption|].
  rewrite Hedges. unfold projected. unfold Graph.edge in He. rewrite He.
  unfold subshot_observation. rewrite rotated_bearing_of_eq.
  fold R. fold b. fold p. now rewrite Hv.
Qed.

(** *** The batch image resampler *)

Lemma scale_image_1 (image : ndarray) : scale_image image (PyInt 1) = Ok image.
Proof. reflexivity. Qed.

(** [undistort_image] reads the configuration of the data set only. *)
Lemma undistort_image_config (shot : Shot.t) (ushots : list Shot.t) (d1 d2 : DataSet.t)
    (original : option ndarray) (interpolation : Interpolation) (image_scale : number) :
  DataSet.depthmap_resolution d1 = DataSet.depthmap_resolution d2 ->
  undistort_image shot ushots d1 original interpolation image_scale
  = undistort_image shot ushots d2 original interpolation image_scale.
Proof.
  intros H. unfold undistort_image. now rewrite H.
Qed.

Lemma with_saved_nil (d : DataSet.t) : with_saved d [] [] [] = d.
Proof.
  destruct d. unfold with_saved. simpl. now rewrite !app_nil_r.
Qed.

Lemma with_saved_with_saved (d : DataSet.t) (i i' : list (ResKey * ndarray * string))
    (m m' s s' : list (ResKey * ndarray)) :
  with_saved (with_saved d i m s) i' m' s' = with_saved d (i ++ i') (m ++ m') (s ++ s').
Proof.
  unfold with_saved. simpl. now rewrite !app_assoc.
Qed.

Lemma save_images_with_saved (image_format : string) (kvs : list (ResKey * ndarray))
    (d : DataSet.t) :
  fold_left (fun d '(k, v) => DataSet.save_undistorted_image d k v image_format) kvs d
  = with_saved d (map (fun '(k, v) => (k, v, image_format)) kvs) [] [].
Proof.
  revert d. induction kvs as [|[k v] kvs IH]; intros d; simpl.
  - now rewrite with_saved_nil.
  - rewrite IH. unfold with_saved, DataSet.save_undistorted_image. simpl.
    now rewrite <- !app_assoc, !app_nil_r.
Qed.

Lemma save_masks_with_saved (kvs : list (ResKey * ndarray)) (d : DataSet.t) :
  fold_left (fun d '(k, v) => DataSet.save_undistorted_mask d k v) kvs d
  = with_saved d [] kvs [].
Proof.
  revert d. induction kvs as [|[k v] kvs IH]; intros d; simpl.
  - now rewrite with_saved_nil.
  - rewrite IH. unfold with_saved, DataSet.save_undistorted_mask. simpl.
    now rewrite <- !app_assoc, !app_nil_r.
Qed.

Lemma save_segmentations_with_saved (kvs : list (ResKey * ndarray)) (d : DataSet.t) :
  fold_left (fun d '(k, v) => DataSet.save_undistorted_segmentation d k v) kvs d
  = with_saved d [] [] kvs.
Proof.
  revert d. induction kvs as [|[k v] kvs IH]; intros d; simpl.
  - now rewrite with_saved_nil.
  - rewrite IH. unfold with_saved, DataSet.save_undistorted_segmentation. simpl.
    now rewrite <- !app_assoc, !app_nil_r.
Qed.

(** The rasters of a kind do not depend on what the task has saved. *)
Lemma undistorted_rasters_with_saved (shot : Shot.t) (ushots : list Shot.t)
    (d : DataSet.t) (i : list (ResKey * ndarray * string)) (m s : list (ResKey * ndarray))
    (raster : option ndarray) (interpolation : Interpolation) (image_scale : number) :
  undistorted_rasters shot ushots (with_saved d i m s) raster interpolation image_scale
  = undistorted_rasters shot ushots d raster interpolation image_scale.
Proof.
  unfold undistorted_rasters. destruct raster; [|reflexivity].
  now rewrite (undistort_image_config shot ushots (with_saved d i m s) d).
Qed.

(** One of the three blocks of [undistort_image_and_masks]: the rasters of
    the kind are computed, and saved when nothing raised. *)
Lemma block_eq (save : DataSet.t -> ResKey -> ndarray -> DataSet.t)
    (W : DataSet.t -> list (ResKey * ndarray) -> DataSet.t)
    (shot : Shot.t) (ushots : list Shot.t) (d : DataSet.t) (raster : option ndarray)
    (interpolation : Interpolation) (image_scale : number) :
  (forall kvs d, fold_left (fun d '(k, v) => save d k v) kvs d = W d kvs) ->
  match raster with
  | Some _ =>
      undistorted <- undistort_image shot ushots d raster interpolation image_scale ;;
      kvs <- items undistorted ;;
      Ok (fold_left (fun d '(k, v) => save d k v) kvs d)
  | None => Ok d
  end
  = (kvs <- undistorted_rasters shot ushots d raster interpolation image_scale ;;
     Ok (W d kvs)).
Proof.
  intros HW. unfold undistorted_rasters. destruct raster as [r|].
  - destruct (undistort_image shot ushots d (Some r) interpolation image_scale)
      as [[kvs|]|e]; cbn; [|reflexivity|reflexivity].
    now rewrite HW.
  - cbn. now rewrite <- (HW [] d).
Qed.

(** C10: the image scale of the caller reaches the colour image only.  A
    task computes the images with the area interpolation and the scale of
    the caller, and the masks and the segmentations with the
    nearest-neighbour interpolation and the scale 1, whatever the scale of
    the caller is; it saves the rasters of a kind when they are computed,
    and stops at the first kind that raises.  Every raster that
    [undistort_image] returns is a raster sampled with the interpolation
    that it was given, resized by [scale_image] with the scale that it was
    given: so the images are resized by the scale of the caller, and the
    masks and the segmentations are the rasters sampled with the
    nearest-neighbour interpolation themselves, in the lens path and in the
    panorama path, since the scale 1 resizes nothing. *)
Theorem masks_and_segmentations_unscaled (shot : Shot.t) (ushots : list Shot.t)
    (data : DataSet.t) (image_format : string) (image_scale : number) :
  let images :=
    undistorted_rasters shot ushots data (DataSet.load_image data (Shot.id shot))
      INTER_AREA image_scale in
  let masks :=
    undistorted_rasters shot ushots data (DataSet.load_mask data (Shot.id shot))
      INTER_NEAREST (PyInt 1) in
  let segmentations :=
    undistorted_rasters shot ushots data (DataSet.load_segmentation data (Shot.id shot))
      INTER_NEAREST (PyInt 1) in
  undistort_image_and_masks (shot, ushots, data, image_format, image_scale) =
    match images with
    | Raise e => (data, Raise e)
    | Ok images =>
        match masks with
        | Raise e => (with_saved data (in_format image_format images) [] [], Raise e)
        | Ok masks =>
            match segmentations with
            | Raise e =>
                (with_saved data (in_format image_format images) masks [], Raise e)
            | Ok segmentations =>
                (with_saved data (in_format image_format images) masks segmentations,
                 Ok tt)
            end
        end
    end
  /\ (forall original interpolation scale rasters,
        undistort_image shot ushots data (Some original) interpolation scale
        = Ok (Some rasters) ->
        Forall (fun '(key, raster) =>
                  exists unscaled,
                    sampled shot data original interpolation key unscaled
                    /\ scale_image unscaled scale = Ok raster)
               rasters)
  /\ (forall original rasters,
        undistort_image shot ushots data (Some original) INTER_NEAREST (PyInt 1)
        = Ok (Some rasters) ->
        Forall (fun '(key, raster) =>
                  sampled shot data original INTER_NEAREST key raster)
               rasters)
  /\ (forall raster, scale_image raster (PyInt 1) = Ok raster)
  /\ panorama_sampling INTER_NEAREST = INTER_NEAREST.
Proof.
  intros images masks segmentations.
  split; [|split; [|split; [|split]]].
  - unfold undistort_image_and_masks.
    pose proof (block_eq
                  (fun d k v => DataSet.save_undistorted_image d k v image_format)
                  (fun d kvs => with_saved d (in_format image_format kvs) [] [])
                  shot ushots data (DataSet.load_image data (Shot.id shot))
                  INTER_AREA image_scale (save_images_with_saved image_format)) as H1.
    cbv beta in H1. cbv zeta. rewrite H1. fold images.
    destruct images as [kvs1|e]; cbn [bind]; [|reflexivity].
    set (data1 := with_saved data (in_format image_format kvs1) [] []).
    pose proof (block_eq DataSet.save_undistorted_mask
                  (fun d kvs => with_saved d [] kvs [])
                  shot ushots data1 (DataSet.load_mask data1 (Shot.id shot))
                  INTER_NEAREST (PyInt 1) save_masks_with_saved) as H2.
    cbv beta in H2. rewrite H2.
    unfold data1 at 1 2. rewrite undistorted_rasters_with_saved.
    change (DataSet.load_mask (with_saved data (in_format image_format kvs1) [] [])
              (Shot.id shot))
      with (DataSet.load_mask data (Shot.id shot)).
    fold masks.
    destruct masks as [kvs2|e]; cbn [bind]; [|reflexivity].
    set (data2 := with_saved data1 [] kvs2 []).
    pose proof (block_eq DataSet.save_undistorted_segmentation
                  (fun d kvs => with_saved d [] [] kvs)
                  shot ushots data2 (DataSet.load_segmentation data2 (Shot.id shot))
                  INTER_NEAREST (PyInt 1) save_segmentations_with_saved) as H3.
    cbv beta in H3. rewrite H3.
    unfold data2 at 1 2, data1 at 1 2. rewrite !undistorted_rasters_with_saved.
    change (DataSet.load_segmentation
              (with_saved (with_saved data (in_format image_format kvs1) [] [])
                 [] kvs2 []) (Shot.id shot))
      with (DataSet.load_segmentation data (Shot.id shot)).
    fold segmentations.
    assert (E2 : data2 = with_saved data (in_format image_format kvs1) kvs2 []).
    { unfold data2, data1. rewrite with_saved_with_saved. cbn [app].
      now rewrite !app_nil_r. }
    destruct segmentations as [kvs3|e]; cbn [bind].
    + rewrite E2, with_saved_with_saved. cbn [app]. now rewrite !app_nil_r.
    + now rewrite E2.
  - intros original interpolation scale rasters.
    apply undistort_image_rasters.
  - intros original rasters H.
    refine (Forall_impl _ _ (undistort_image_rasters _ _ _ _ _ _ _ H)).
    intros [key raster] [unscaled [Hsampled Hscale]].
    rewrite scale_image_1 in Hscale. injection Hscale as <-. exact Hsampled.
  - exact scale_image_1.
  - reflexivity.
Qed.

(** *** The reconstruction undistorter *)

(** A shot of a camera of none of the five projection types leaves the pass
    as it found it: it enters neither the new reconstruction nor
    [undistorted_shots], and nothing is raised. *)
Lemma undistort_shot_unsupported (data : DataSet.t) (st : Pass.t) (shot : Shot.t) :
  is_in (projection_type (Shot.camera shot))
    ["perspective"; "brown"; "fisheye"; "equirectangular"; "spherical"] = false ->
  undistort_shot data st shot = (st, Ok tt).
Proof.
  unfold is_in, undistort_shot. simpl. intros H.
  none_of_them H. reflexivity.
Qed.

(** [undistort_image] has the branch that the pass lacks. *)
Lemma undistort_image_unsupported (shot : Shot.t) (ushots : list Shot.t) (data : DataSet.t)
    (original : ndarray) (interpolation : Interpolation) (image_scale : number) :
  is_in (projection_type (Shot.camera shot))
    ["perspective"; "brown"; "fisheye"; "equirectangular"; "spherical"] = false ->
  undistort_image shot ushots data (Some original) interpolation image_scale =
    Raise (NotImplementedError
             ("Undistort not implemented for projection type: "
              ++ projection_type (Shot.camera shot))).
Proof.
  unfold is_in, undistort_image. simpl. intros H.
  none_of_them H. reflexivity.
Qed.

(** C1, on the reconstruction above: the pass does not raise at the shot of
    the unknown projection type, it skips it.  The reconstruction of the
    shots that were entered is saved, and the run ends afterwards with
    [KeyError] for the id of the skipped shot, when the arguments of the
    tasks are built; no unsupported-projection error is raised, and the
    track graph is not saved. *)
Theorem unsupported_projection_skipped :
  undistort_shot example_data
    (Pass.Build Reconstruction.new Dict.empty Dict.empty) example_unsupported_shot
  = (Pass.Build Reconstruction.new Dict.empty Dict.empty, Ok tt)
  /\ undistort_reconstruction Dict.empty example_reconstruction example_data
       "jpg" (PyFloat 1)
     = (DataSet.save_undistorted_reconstruction example_data
          [ {| Reconstruction.cameras :=
                 [("camera_a", Shot.camera example_perspective_shot)];
               Reconstruction.shots := [("a.jpg", example_perspective_shot)];
               Reconstruction.points := Dict.empty |} ],
        Dict.empty,
        Raise (KeyError "b.jpg"))
  /\ snd (run example_data "jpg" (PyFloat 1)) = Raise (KeyError "b.jpg")
  /\ DataSet.undistorted_tracks_graph (fst (run example_data "jpg" (PyFloat 1))) = None.
Proof.
  repeat split.
Qed.

End Properties.

(** ** Further facts on the monad of exceptions *)

Lemma raises_only_bind {A B : Type} (allowed : exn -> Prop) (r : result A)
    (k : A -> result B) :
  raises_only allowed r -> (forall a, raises_only allowed (k a)) ->
  raises_only allowed (bind r k).
Proof.
  destruct r as [a|e]; simpl; auto.
Qed.

Lemma raises_only_mapM {A B : Type} (allowed : exn -> Prop) (f : A -> result B)
    (l : list A) :
  (forall a, raises_only allowed (f a)) -> raises_only allowed (mapM f l).
Proof.
  intros H. induction l as [|a l IH]; simpl; [exact I|].
  apply raises_only_bind; [apply H|]. intros b.
  apply raises_only_bind; [exact IH|]. intros bs. exact I.
Qed.

Lemma mapM_ext {A B : Type} (f g : A -> result B) (l : list A) :
  (forall a, f a = g a) -> mapM f l = mapM g l.
Proof.
  intros H. induction l as [|a l IH]; simpl; [reflexivity|]. now rewrite H, IH.
Qed.

Lemma mapM_fst {A B K : Type} (key : A -> K) (f : A -> result B) (l : list A)
    (res : list (K * B)) :
  mapM (fun a => b <- f a ;; Ok (key a, b)) l = Ok res -> map fst res = map key l.
Proof.
  revert res. induction l as [|a l IH]; simpl; intros res H.
  - now injection H as <-.
  - destruct (f a) as [b|e]; simpl in H; [|discriminate].
    destruct (mapM (fun a => b <- f a ;; Ok (key a, b)) l) as [bs|e];
      simpl in H; [|discriminate].
    injection H as <-. simpl. f_equal. now apply IH.
Qed.

Lemma int_of_float_ok (x : float) (z : Z) :
  int_of_float x = Ok z -> finite x = true.
Proof.
  unfold int_of_float, finite. destruct (Prim2SF x); intros H; try discriminate; reflexivity.
Qed.

Lemma int_int_mul_ok (n : Z) (factor : number) (z : Z) :
  int (int_mul n factor) = Ok z -> scalable n factor = true.
Proof.
  destruct factor as [k|f]; simpl; [reflexivity|]. apply int_of_float_ok.
Qed.

Lemma int_implemented (n : number) : raises_only implemented (int n).
Proof.
  destruct n as [z|f]; simpl; [exact I|].
  unfold int_of_float. destruct (Prim2SF f); exact I.
Qed.

(** ** Further facts on the strings *)

Lemma append_length (a b : string) :
  String.length (a ++ b) = (String.length a + String.length b)%nat.
Proof.
  induction a as [|c a IH]; simpl; [reflexivity|]. now rewrite IH.
Qed.

Lemma append_inj (a b c : string) : (a ++ b = a ++ c)%string -> b = c.
Proof.
  induction a as [|x a IH]; simpl; intros H; [assumption|].
  injection H as H. auto.
Qed.

Lemma append_neq (a b : string) : b <> "" -> (a ++ b)%string <> a.
Proof.
  intros Hb E. assert (H : String.length (a ++ b) = String.length a) by now rewrite E.
  rewrite append_length in H. destruct b; [now apply Hb|]. simpl in H. lia.
Qed.

(** ** Further facts on the dictionaries *)

Lemma Dict_mem_set_same {V : Type} (d : Dict.t V) (k : string) (v : V) :
  Dict.mem (Dict.set d k v) k = true.
Proof. unfold Dict.mem. now rewrite Dict_get_set_same. Qed.

Lemma Dict_mem_set_inv {V : Type} (d : Dict.t V) (k k' : string) (v : V) :
  Dict.mem (Dict.set d k v) k' = true -> k' = k \/ Dict.mem d k' = true.
Proof.
  destruct (String.eqb_spec k k') as [->|Hn]; [now left|].
  unfold Dict.mem. rewrite Dict_get_set_other by assumption. now right.
Qed.

Lemma Dict_Forall_set {V : Type} (P : V -> Prop) (d : Dict.t V) (k : string) (v : V) :
  Dict_Forall P d -> P v -> Dict_Forall P (Dict.set d k v).
Proof.
  unfold Dict_Forall, Dict.values. intros Hd Hv.
  induction d as [|[k' v'] d IH]; simpl.
  - now constructor.
  - inversion Hd; subst. destruct (String.eqb k k'); simpl; constructor; auto.
Qed.

Lemma string_eqb_true (a b : string) : String.eqb a b = true -> a = b.
Proof. apply String.eqb_eq. Qed.

(** ** Further facts on the track graph *)

Lemma Dict_get_set {V : Type} (d : Dict.t V) (k k' : string) (v : V) :
  Dict.get (Dict.set d k v) k' = if String.eqb k' k then Some v else Dict.get d k'.
Proof.
  destruct (String.eqb_spec k' k) as [->|Hn].
  - apply Dict_get_set_same.
  - apply Dict_get_set_other. congruence.
Qed.

Lemma neighbours_set_nbr (graph : Graph.t) (u v m : string) (d : Graph.EdgeData) :
  Graph.contains graph u = true ->
  Graph.neighbours (Graph.set_nbr graph u v d) m
  = if String.eqb m u then Dict.set (Graph.neighbours graph u) v d
    else Graph.neighbours graph m.
Proof.
  intros Hc. destruct (String.eqb_spec m u) as [->|Hn].
  - now apply neighbours_set_nbr_same.
  - apply neighbours_set_nbr_other. congruence.
Qed.

(** The edges after [add_edge(u, v, ...)]: the new data between [u] and [v],
    from both ends, and the edges of before everywhere else. *)
Lemma edge_add_edge (graph : Graph.t) (u v a b : string) (d : Graph.EdgeData) :
  Graph.edge (Graph.add_edge graph u v d) a b
  = if (String.eqb a u && String.eqb b v) || (String.eqb a v && String.eqb b u)
    then Some d else Graph.edge graph a b.
Proof.
  unfold Graph.edge, Graph.add_edge.
  set (g2 := Graph.ensure_node (Graph.ensure_node graph u) v).
  assert (Hu : Graph.contains g2 u = true) by (unfold g2; auto with graph).
  assert (Hv : Graph.contains g2 v = true) by (unfold g2; auto with graph).
  assert (E : forall m, Graph.neighbours g2 m = Graph.neighbours graph m)
    by (intros m; unfold g2; now rewrite !neighbours_ensure_node).
  rewrite neighbours_set_nbr by auto with graph.
  rewrite !neighbours_set_nbr by assumption.
  rewrite !E.
  destruct (String.eqb_spec a v) as [->|Hav];
    destruct (String.eqb_spec v u) as [->|Hvu];
    rewrite ?Dict_get_set;
    repeat match goal with
           | |- context [String.eqb ?x ?y] => destruct (String.eqb_spec x y)
           end;
    subst; simpl; try reflexivity; try congruence;
    rewrite ?Dict_get_set;
    repeat match goal with
           | |- context [String.eqb ?x ?y] => destruct (String.eqb_spec x y)
           end;
    subst; simpl; try reflexivity; congruence.
Qed.

Lemma edge_add_node (graph : Graph.t) (n u v : string) (b : Z) :
  Graph.edge (Graph.add_node graph n b) u v = Graph.edge graph u v.
Proof.
  unfold Graph.edge. now rewrite neighbours_add_node.
Qed.

Lemma node_bipartite_set_other (graph : Graph.t) (n m : string) (node : Graph.Node) :
  n <> m -> node_bipartite (Dict.set graph n node) m = node_bipartite graph m.
Proof.
  intros H. unfold node_bipartite. now rewrite Dict_get_set_other.
Qed.

Lemma node_bipartite_add_node (graph : Graph.t) (n m : string) (b : Z) :
  node_bipartite (Graph.add_node graph n b) m
  = if String.eqb m n then Some b else node_bipartite graph m.
Proof.
  unfold Graph.add_node. destruct (String.eqb_spec m n) as [->|Hn].
  - unfold node_bipartite.
    destruct (Dict.get graph n); now rewrite Dict_get_set_same.
  - destruct (Dict.get graph n); apply node_bipartite_set_other; congruence.
Qed.

Lemma node_bipartite_ensure_node (graph : Graph.t) (n m : string) :
  node_bipartite (Graph.ensure_node graph n) m = node_bipartite graph m.
Proof.
  unfold Graph.ensure_node, Dict.mem.
  destruct (Dict.get graph n) eqn:E; [reflexivity|].
  destruct (String.eqb_spec n m) as [->|Hn].
  - unfold node_bipartite. now rewrite Dict_get_set_same, E.
  - now apply node_bipartite_set_other.
Qed.

Lemma node_bipartite_set_nbr (graph : Graph.t) (u v m : string) (d : Graph.EdgeData) :
  node_bipartite (Graph.set_nbr graph u v d) m = node_bipartite graph m.
Proof.
  unfold Graph.set_nbr. destruct (Dict.get graph u) as [node|] eqn:E; [|reflexivity].
  destruct (String.eqb_spec u m) as [->|Hn].
  - unfold node_bipartite. now rewrite Dict_get_set_same, E.
  - now apply node_bipartite_set_other.
Qed.

(** [add_edge] changes the [bipartite] attribute of no node. *)
Lemma node_bipartite_add_edge (graph : Graph.t) (u v m : string) (d : Graph.EdgeData) :
  node_bipartite (Graph.add_edge graph u v d) m = node_bipartite graph m.
Proof.
  unfold Graph.add_edge.
  now rewrite !node_bipartite_set_nbr, !node_bipartite_ensure_node.
Qed.

Lemma getitem_neighbours (graph : Graph.t) (n : string) (nbrs : Dict.t Graph.EdgeData) :
  Graph.getitem graph n = Ok nbrs -> nbrs = Graph.neighbours graph n.
Proof.
  unfold Graph.getitem, Dict.getitem, Graph.neighbours.
  destruct (Dict.get graph n); simpl; intros H; [now injection H as <- | discriminate].
Qed.

(** ** Further facts on the data set *)

(** One of the three blocks of [undistort_image_and_masks]: it raises, or it
    saves the rasters of [undistort_image], and none when the data set has
    no raster. *)
Lemma block_cases (save : DataSet.t -> ResKey -> ndarray -> DataSet.t)
    (W : DataSet.t -> list (ResKey * ndarray) -> DataSet.t)
    (raster : option ndarray) (u : result (option (list (ResKey * ndarray))))
    (d : DataSet.t) :
  (forall kvs d, fold_left (fun d '(k, v) => save d k v) kvs d = W d kvs) ->
  let block :=
    match raster with
    | Some _ =>
        undistorted <- u ;;
        kvs <- items undistorted ;;
        Ok (fold_left (fun d '(k, v) => save d k v) kvs d)
    | None => Ok d
    end in
  (exists e, block = Raise e)
  \/ (exists kvs, block = Ok (W d kvs) /\ (raster = None -> kvs = [])).
Proof.
  intros HW block. unfold block.
  destruct raster as [r|].
  - destruct u as [[kvs|]|e]; simpl; eauto.
    right. exists kvs. rewrite HW. split; [reflexivity | discriminate].
  - right. exists []. rewrite <- (HW [] d). split; reflexivity.
Qed.

Section Coverage.

Context {ext : External}.

(** *** The resamplers *)

(** X1: [scale_image] returns a raster exactly when the factor equals 1.0,
    or the raster has three dimensions, the products of its width and of its
    height with the factor are finite, and the resize to their integer parts
    returns one.  For another factor a raster of another number of
    dimensions raises [ValueError], and a raster is returned only when both
    integer parts are positive. *)
Theorem scale_image_succeeds_iff (image : ndarray) (factor : number) :
  ((exists scaled, scale_image image factor = Ok scaled) <->
   (eq_1_0 factor = true
    \/ exists height width channels,
         shape image = [height; width; channels]
         /\ scalable width factor = true /\ scalable height factor = true
         /\ exists scaled,
              cv2_resize image
                (scaled_dimension width factor, scaled_dimension height factor)
                INTER_NEAREST = Ok scaled))
  /\ (eq_1_0 factor = false -> List.length (shape image) <> 3%nat ->
      scale_image image factor = Raise ValueError)
  /\ (forall scaled,
        eq_1_0 factor = false -> scale_image image factor = Ok scaled ->
        exists height width channels,
          shape image = [height; width; channels]
          /\ 0 < scaled_dimension width factor
          /\ 0 < scaled_dimension height factor).
Proof.
  assert (Hreturns : forall scaled,
             eq_1_0 factor = false -> scale_image image factor = Ok scaled ->
             exists height width channels,
               shape image = [height; width; channels]
               /\ scalable width factor = true /\ scalable height factor = true
               /\ cv2_resize image
                    (scaled_dimension width factor, scaled_dimension height factor)
                    INTER_NEAREST = Ok scaled).
  { intros scaled Hf H. unfold scale_image in H. rewrite Hf in H.
    destruct (shape image) as [|h [|w [|c [|x s]]]]; try discriminate.
    exists h, w, c. split; [reflexivity|].
    destruct (int (int_mul w factor)) as [w'|] eqn:Hw; [|discriminate].
    destruct (int (int_mul h factor)) as [h'|] eqn:Hh; [|discriminate].
    pose proof (int_int_mul_ok _ _ _ Hw) as Sw.
    pose proof (int_int_mul_ok _ _ _ Hh) as Sh.
    rewrite (int_int_mul _ _ Sw) in Hw. injection Hw as <-.
    rewrite (int_int_mul _ _ Sh) in Hh. injection Hh as <-.
    cbn [bind] in H. auto. }
  split; [split|split].
  - intros [scaled H]. destruct (eq_1_0 factor) eqn:Hf; [now left|right].
    destruct (Hreturns scaled eq_refl H) as [h [w [c [Hs [Hw [Hh Hcall]]]]]].
    exists h, w, c. eauto.
  - intros [H|[h [w [c [Hs [Hw [Hh [scaled Hcall]]]]]]]]; unfold scale_image.
    + rewrite H. now exists image.
    + destruct (eq_1_0 factor); [now exists image|].
      rewrite Hs, (int_int_mul _ _ Hw), (int_int_mul _ _ Hh). cbn [bind]. eauto.
  - intros Hf Hlen. unfold scale_image. rewrite Hf.
    destruct (shape image) as [|h [|w [|c [|x s]]]]; try reflexivity.
    now contradiction Hlen.
  - intros scaled Hf H.
    destruct (Hreturns scaled Hf H) as [h [w [c [Hs [_ [_ Hcall]]]]]].
    exists h, w, c. split; [exact Hs|].
    exact (cv2_resize_positive _ _ _ _ _ Hcall).
Qed.

Lemma cv2_resize_raises_only (image : ndarray) (size : Z * Z)
    (interpolation : Interpolation) :
  raises_only implemented (cv2_resize image size interpolation).
Proof.
  pose proof (cv2_resize_implemented image size interpolation) as H.
  destruct (cv2_resize image size interpolation) as [raster|e]; [exact I|].
  destruct e; try exact I. now contradiction (H message).
Qed.

Lemma scale_image_implemented (image : ndarray) (factor : number) :
  raises_only implemented (scale_image image factor).
Proof.
  unfold scale_image. destruct (eq_1_0 factor); [exact I|].
  destruct (shape image) as [|h [|w [|c [|x s]]]]; try exact I.
  apply raises_only_bind; [apply int_implemented|]. intros w'.
  apply raises_only_bind; [apply int_implemented|]. intros h'.
  apply cv2_resize_raises_only.
Qed.

Lemma height_width_implemented (image : ndarray) :
  raises_only implemented (height_width image).
Proof.
  unfold height_width. destruct (shape image) as [|h [|w s]]; exact I.
Qed.

Lemma render_implemented (image : ndarray) (panoshot perspectiveshot : Shot.t)
    (interpolation : Interpolation) :
  raises_only implemented
    (render_perspective_view_of_a_panorama image panoshot perspectiveshot interpolation).
Proof.
  unfold render_perspective_view_of_a_panorama.
  apply raises_only_bind.
  { unfold camera_height. destruct (Shot.camera perspectiveshot); exact I. }
  intros height. apply raises_only_bind.
  { unfold camera_width. destruct (Shot.camera perspectiveshot); exact I. }
  intros width. apply raises_only_bind.
  { destruct (shape image) as [|h [|w s]]; exact I. }
  intros [h w]. exact I.
Qed.

(** X2: [undistort_image] raises [NotImplementedError] exactly when it is
    given a raster for a shot whose projection type is none of the five that
    the command knows; the message names the projection type.  No other
    branch raises that exception. *)
Theorem undistort_image_not_implemented_iff (shot : Shot.t) (ushots : list Shot.t)
    (data : DataSet.t) (original : option ndarray) (interpolation : Interpolation)
    (image_scale : number) (message : string) :
  undistort_image shot ushots data original interpolation image_scale
  = Raise (NotImplementedError message)
  <-> (exists raster, original = Some raster)
      /\ supported shot = false
      /\ message = "Undistort not implemented for projection type: "
                   ++ projection_type (Shot.camera shot).
Proof.
  split.
  - intros H.
    assert (G : raises_only
                  (fun e => implemented e
                            \/ (exists raster, original = Some raster)
                               /\ supported shot = false
                               /\ e = NotImplementedError
                                        ("Undistort not implemented for projection type: "
                                         ++ projection_type (Shot.camera shot)))
                  (undistort_image shot ushots data original interpolation image_scale)).
    { clear H. unfold undistort_image. destruct original as [raster|]; [|exact I].
      destruct (is_in (projection_type (Shot.camera shot))
                  ["perspective"; "brown"; "fisheye"]) eqn:Hlens.
      - apply raises_only_bind; [destruct ushots; simpl; auto|]. intros new_camera.
        apply raises_only_bind.
        + repeat match goal with
                 | |- raises_only _ (if ?b then _ else _) => destruct b
                 end;
            (apply raises_only_bind;
             [destruct (Shot.camera shot); simpl; auto|]);
            intros camera;
            [unfold undistort_perspective_image
            |unfold undistort_brown_image
            |unfold undistort_fisheye_image];
            (apply raises_only_bind;
             [destruct (height_width raster) eqn:E; simpl; auto;
              left; pose proof (height_width_implemented raster) as G;
              now rewrite E in G|]);
            intros [h w]; simpl;
            match goal with
            | |- context [let '(_, _) := ?m in _] => destruct m
            end; exact I.
        + intros undistorted. apply raises_only_bind.
          * pose proof (scale_image_implemented undistorted image_scale) as G.
            destruct (scale_image undistorted image_scale); simpl in *; auto.
          * intros scaled. exact I.
      - destruct (is_in (projection_type (Shot.camera shot))
                    ["equirectangular"; "spherical"]) eqn:Hpano.
        + apply raises_only_bind.
          { pose proof (cv2_resize_raises_only raster
                          (4 * DataSet.depthmap_resolution data,
                           4 * DataSet.depthmap_resolution data / 2) interpolation) as G.
            destruct (cv2_resize raster _ interpolation); simpl in *; auto. }
          intros image.
          apply raises_only_bind; [|intros res; exact I].
          apply raises_only_mapM. intros subshot.
          apply raises_only_bind.
          * pose proof (render_implemented image shot subshot
                          (if Interpolation_eqb interpolation INTER_AREA
                           then INTER_LINEAR else interpolation)) as G.
            destruct (render_perspective_view_of_a_panorama _ _ _ _); simpl in *; auto.
          * intros undistorted. apply raises_only_bind; [|intros scaled; exact I].
            pose proof (scale_image_implemented undistorted image_scale) as G.
            destruct (scale_image undistorted image_scale); simpl in *; auto.
        + simpl. right. split; [eauto|]. split; [|reflexivity].
          unfold supported, known_projection_types, is_in in *. simpl in *.
          none_of_them Hlens. none_of_them Hpano. reflexivity. }
    rewrite H in G. simpl in G. destruct G as [[]|[Hr [Hs Hm]]].
    injection Hm as ->. auto.
  - intros [[raster ->] [Hs ->]].
    apply undistort_image_unsupported. exact Hs.
Qed.

(** X3: what [undistort_image] returns.  Without a raster it returns
    [None], whatever the shot.  For a lens camera it returns one raster, under
    the id of the shot, and it raises [IndexError] when the list of
    undistorted shots is empty.  For a panorama and a list of distinct
    sub-shots it returns one raster per sub-shot in the order of the list,
    each under the sub-shot object itself (not under its id); for the empty
    list it returns no raster when the resize of the panorama returns, and
    raises what that resize raises otherwise. *)
Theorem undistort_image_keys (shot : Shot.t) (ushots : list Shot.t) (data : DataSet.t)
    (original : option ndarray) (interpolation : Interpolation) (image_scale : number) :
  let p := projection_type (Shot.camera shot) in
  (forall out,
     undistort_image shot ushots data original interpolation image_scale = Ok out ->
     match original with
     | None => out = None
     | Some _ =>
         exists res,
           out = Some res
           /\ (is_in p ["perspective"; "brown"; "fisheye"] = true ->
               exists raster, res = [(ById (Shot.id shot), raster)])
           /\ (is_in p ["perspective"; "brown"; "fisheye"] = false ->
               NoDup ushots ->
               map fst res = map ByShot ushots)
     end)
  /\ (forall raster,
        is_in p ["perspective"; "brown"; "fisheye"] = true ->
        undistort_image shot [] data (Some raster) interpolation image_scale
        = Raise IndexError)
  /\ (forall raster,
        is_in p ["equirectangular"; "spherical"] = true ->
        undistort_image shot [] data (Some raster) interpolation image_scale
        = (image <- cv2_resize raster
                      (4 * DataSet.depthmap_resolution data,
                       4 * DataSet.depthmap_resolution data / 2) interpolation ;;
           Ok (Some []))).
Proof.
  intros p. unfold p. split; [|split].
  - intros out H.
    destruct original as [raster|]; [|unfold undistort_image in H; now injection H as <-].
    destruct (is_in (projection_type (Shot.camera shot))
                ["perspective"; "brown"; "fisheye"]) eqn:Hlens.
    + unfold undistort_image in H. rewrite Hlens in H.
      match type of H with
      | bind ?a _ = _ => destruct a as [new_camera|]; [|discriminate]
      end.
      simpl in H.
      match type of H with
      | bind ?a _ = _ => destruct a as [undistorted|]; [|discriminate]
      end.
      simpl in H.
      destruct (scale_image undistorted image_scale) as [scaled|]; [|discriminate].
      injection H as <-. eexists. split; [reflexivity|]. split; [eauto | discriminate].
    + destruct (is_in (projection_type (Shot.camera shot))
                  ["equirectangular"; "spherical"]) eqn:Hpano;
        [|unfold undistort_image in H; rewrite Hlens, Hpano in H; discriminate].
      rewrite (undistort_image_panorama _ _ _ _ _ _ Hpano) in H.
      destruct (cv2_resize raster _ interpolation) as [image|];
        cbn [bind] in H; [|discriminate].
      match type of H with
      | bind ?a _ = _ => destruct a as [res|] eqn:Hres; [|discriminate]
      end.
      injection H as <-. exists res. split; [reflexivity|]. split; [discriminate|].
      intros _ _.
      apply (mapM_fst ByShot
               (fun subshot =>
                  undistorted <- render_perspective_view_of_a_panorama
                                   image shot subshot (panorama_sampling interpolation) ;;
                  scale_image undistorted image_scale)).
      rewrite <- Hres. apply mapM_ext. intros subshot.
      destruct (render_perspective_view_of_a_panorama _ _ _ _); simpl; [|reflexivity].
      destruct (scale_image _ _); reflexivity.
  - intros raster H. unfold undistort_image. now rewrite H.
  - intros raster H. rewrite (undistort_image_panorama _ _ _ _ _ _ H).
    destruct (cv2_resize raster _ interpolation); reflexivity.
Qed.

(** *** The batch image resampler *)

(** What a task does to the data set, whatever its outcome. *)
Lemma task_effect (shot : Shot.t) (ushots : list Shot.t) (data : DataSet.t)
    (image_format : string) (image_scale : number) :
  exists images masks segmentations,
    fst (undistort_image_and_masks (shot, ushots, data, image_format, image_scale))
    = with_saved data images masks segmentations
    /\ (DataSet.load_image data (Shot.id shot) = None -> images = [])
    /\ (DataSet.load_mask data (Shot.id shot) = None -> masks = [])
    /\ (DataSet.load_segmentation data (Shot.id shot) = None -> segmentations = []).
Proof.
  unfold undistort_image_and_masks. cbv zeta.
  destruct (block_cases
              (fun d k v => DataSet.save_undistorted_image d k v image_format)
              (fun d kvs => with_saved d (map (fun '(k, v) => (k, v, image_format)) kvs) [] [])
              (DataSet.load_image data (Shot.id shot))
              (undistort_image shot ushots data (DataSet.load_image data (Shot.id shot))
                 INTER_AREA image_scale)
              data (save_images_with_saved image_format))
    as [[e H1]|[kvs1 [H1 N1]]]; cbv beta zeta in H1; rewrite H1.
  { exists [], [], []. rewrite with_saved_nil. repeat split; reflexivity. }
  set (data1 := with_saved data (map (fun '(k, v) => (k, v, image_format)) kvs1) [] []).
  destruct (block_cases DataSet.save_undistorted_mask
              (fun d kvs => with_saved d [] kvs [])
              (DataSet.load_mask data1 (Shot.id shot))
              (undistort_image shot ushots data1 (DataSet.load_mask data1 (Shot.id shot))
                 INTER_NEAREST (PyInt 1))
              data1 save_masks_with_saved)
    as [[e H2]|[kvs2 [H2 N2]]]; cbv beta zeta in H2; rewrite H2.
  { exists (map (fun '(k, v) => (k, v, image_format)) kvs1), [], [].
    split; [reflexivity|]. repeat split; try reflexivity.
    intros E. now rewrite (N1 E). }
  set (data2 := with_saved data1 [] kvs2 []).
  destruct (block_cases DataSet.save_undistorted_segmentation
              (fun d kvs => with_saved d [] [] kvs)
              (DataSet.load_segmentation data2 (Shot.id shot))
              (undistort_image shot ushots data2
                 (DataSet.load_segmentation data2 (Shot.id shot))
                 INTER_NEAREST (PyInt 1))
              data2 save_segmentations_with_saved)
    as [[e H3]|[kvs3 [H3 N3]]]; cbv beta zeta in H3; rewrite H3.
  { exists (map (fun '(k, v) => (k, v, image_format)) kvs1), kvs2, [].
    unfold data2, data1. rewrite with_saved_with_saved. simpl. rewrite !app_nil_r.
    split; [reflexivity|]. repeat split; try reflexivity.
    - intros E. now rewrite (N1 E).
    - exact N2. }
  exists (map (fun '(k, v) => (k, v, image_format)) kvs1), kvs2, kvs3.
  unfold data2, data1. rewrite !with_saved_with_saved. simpl. rewrite !app_nil_r.
  split; [reflexivity|]. repeat split.
  - intros E. now rewrite (N1 E).
  - exact N2.
  - exact N3.
Qed.

(** X4: whatever its outcome, a task leaves the inputs and the
    configuration of the data set, and the reconstruction and the track
    graph that were saved, as they were; it only saves further rasters after
    those that the data set holds. *)
Theorem task_only_saves_rasters (shot : Shot.t) (ushots : list Shot.t) (data : DataSet.t)
    (image_format : string) (image_scale : number) :
  exists images masks segmentations,
    fst (undistort_image_and_masks (shot, ushots, data, image_format, image_scale))
    = with_saved data images masks segmentations.
Proof.
  destruct (task_effect shot ushots data image_format image_scale)
    as [images [masks [segmentations [H _]]]].
  now exists images, masks, segmentations.
Qed.

(** X5: a raster that the data set does not have is skipped: the task saves
    no undistorted image for a shot without an image, no undistorted mask
    for a shot without a mask and no undistorted segmentation for a shot
    without a segmentation; a shot that has none of the three ends the task
    well with the data set as it was, whatever its projection type. *)
Theorem missing_raster_is_skipped (shot : Shot.t) (ushots : list Shot.t) (data : DataSet.t)
    (image_format : string) (image_scale : number) :
  let task := undistort_image_and_masks (shot, ushots, data, image_format, image_scale) in
  (DataSet.load_image data (Shot.id shot) = None ->
   DataSet.undistorted_images (fst task) = DataSet.undistorted_images data)
  /\ (DataSet.load_mask data (Shot.id shot) = None ->
      DataSet.undistorted_masks (fst task) = DataSet.undistorted_masks data)
  /\ (DataSet.load_segmentation data (Shot.id shot) = None ->
      DataSet.undistorted_segmentations (fst task) = DataSet.undistorted_segmentations data)
  /\ (DataSet.load_image data (Shot.id shot) = None ->
      DataSet.load_mask data (Shot.id shot) = None ->
      DataSet.load_segmentation data (Shot.id shot) = None ->
      task = (data, Ok tt)).
Proof.
  intros task. unfold task.
  destruct (task_effect shot ushots data image_format image_scale)
    as [images [masks [segmentations [H [Hi [Hm Hs]]]]]].
  rewrite H. simpl. repeat split.
  - intros E. rewrite (Hi E). apply app_nil_r.
  - intros E. rewrite (Hm E). apply app_nil_r.
  - intros E. rewrite (Hs E). apply app_nil_r.
  - intros E1 E2 E3. unfold undistort_image_and_masks.
    unfold DataSet.load_image, DataSet.load_mask, DataSet.load_segmentation in *.
    cbv zeta. rewrite E1. cbv iota beta. rewrite E2. cbv iota beta. now rewrite E3.
Qed.

(** *** The reconstruction undistorter *)

Lemma views_perspective (shot : Shot.t) (width : Z) :
  List.length (perspective_views_of_a_panorama shot width) = 6%nat
  /\ Forall perspective_type (perspective_views_of_a_panorama shot width).
Proof.
  split; [reflexivity|]. unfold perspective_views_of_a_panorama. simpl.
  repeat constructor.
Qed.

(** Any property of the state of the pass that a turn keeps is kept by the
    pass, however it ends. *)
Lemma undistort_shots_invariant (data : DataSet.t) (P : Pass.t -> Prop) :
  (forall st shot, P st -> P (fst (undistort_shot data st shot))) ->
  forall shots st, P st -> P (fst (undistort_shots data st shots)).
Proof.
  intros Hstep shots. induction shots as [|shot shots IH]; intros st Hst; simpl.
  - exact Hst.
  - specialize (Hstep st shot Hst).
    destruct (undistort_shot data st shot) as [st1 [[]|e]]; simpl in *; auto.
Qed.

Lemma add_subshots_urec (shot : Shot.t) (subshots : list Shot.t)
    (urec : Reconstruction.t) (graph : Graph.t) :
  Forall perspective_type subshots ->
  Dict_Forall (fun camera => projection_type camera = "perspective")
    (Reconstruction.cameras urec) ->
  Dict_Forall perspective_type (Reconstruction.shots urec) ->
  let urec' := fst (fst (add_subshots shot subshots urec graph)) in
  Dict_Forall (fun camera => projection_type camera = "perspective")
    (Reconstruction.cameras urec')
  /\ Dict_Forall perspective_type (Reconstruction.shots urec')
  /\ Reconstruction.points urec' = Reconstruction.points urec.
Proof.
  intros Hsub. revert urec graph.
  induction Hsub as [|subshot subshots Hp Hsub IH]; intros urec graph Hc Hs; simpl.
  - auto.
  - set (urec1 := Reconstruction.add_shot
                    (Reconstruction.add_camera urec (Shot.camera subshot)) subshot).
    assert (Hc1 : Dict_Forall (fun camera => projection_type camera = "perspective")
                    (Reconstruction.cameras urec1))
      by (simpl; now apply Dict_Forall_set).
    assert (Hs1 : Dict_Forall perspective_type (Reconstruction.shots urec1))
      by (simpl; now apply Dict_Forall_set).
    destruct (add_subshot_tracks graph shot subshot) as [graph1 [[]|e]]; simpl.
    + destruct (IH urec1 graph1 Hc1 Hs1) as [H1 [H2 H3]]. auto.
    + auto.
Qed.

(** What a turn of the pass does to [undistorted_shots]: nothing, and then
    it did not end well or the shot is of no known projection type; or it
    enters the shot, ends well, and the shot is of a known type. *)
Lemma undistort_shot_mapping (data : DataSet.t) (st : Pass.t) (shot : Shot.t) :
  let turn := undistort_shot data st shot in
  (Pass.undistorted_shots (fst turn) = Pass.undistorted_shots st
   /\ (snd turn = Ok tt -> supported shot = false))
  \/ (exists ushots,
        Pass.undistorted_shots (fst turn)
        = Dict.set (Pass.undistorted_shots st) (Shot.id shot) ushots
        /\ snd turn = Ok tt /\ supported shot = true).
Proof.
  unfold undistort_shot, supported, known_projection_types, is_in.
  cbn [existsb]. cbv zeta.
  destruct (String.eqb (projection_type (Shot.camera shot)) "perspective");
    [right; eexists; cbn; eauto|].
  destruct (String.eqb (projection_type (Shot.camera shot)) "brown").
  { destruct (as_brown _ (Shot.camera shot)); cbn;
      [right; eexists; eauto | left; split; [reflexivity | discriminate]]. }
  destruct (String.eqb (projection_type (Shot.camera shot)) "fisheye").
  { destruct (as_fisheye _ (Shot.camera shot)); cbn;
      [right; eexists; eauto | left; split; [reflexivity | discriminate]]. }
  destruct (String.eqb (projection_type (Shot.camera shot)) "equirectangular"
            || (String.eqb (projection_type (Shot.camera shot)) "spherical" || false))
    eqn:E.
  - match goal with
    | |- context [add_subshots ?a ?b ?c ?d] =>
        destruct (add_subshots a b c d) as [[urec graph] [[]|e]]
    end;
      cbn; [right; eexists; eauto | left; split; [reflexivity | discriminate]].
  - left. cbn. auto.
Qed.

Lemma undistort_shot_undistorted_only (data : DataSet.t) (st : Pass.t) (shot : Shot.t) :
  undistorted_only st -> undistorted_only (fst (undistort_shot data st shot)).
Proof.
  intros [Hc [Hs Hm]]. unfold undistort_shot, undistorted_only.
  assert (Hone : forall u, perspective_type u ->
                 (List.length [u] = 1%nat \/ List.length [u] = 6%nat)
                 /\ Forall perspective_type [u])
    by (intros u Hu; split; [now left | now repeat constructor]).
  destruct (String.eqb (projection_type (Shot.camera shot)) "perspective") eqn:Ep.
  { apply string_eqb_true in Ep. simpl.
    repeat split; apply Dict_Forall_set; auto. }
  destruct (String.eqb (projection_type (Shot.camera shot)) "brown").
  { destruct (as_brown _ (Shot.camera shot)); simpl; [|auto].
    repeat split; apply Dict_Forall_set; auto; try apply Hone; reflexivity. }
  destruct (String.eqb (projection_type (Shot.camera shot)) "fisheye").
  { destruct (as_fisheye _ (Shot.camera shot)); simpl; [|auto].
    repeat split; apply Dict_Forall_set; auto; try apply Hone; reflexivity. }
  destruct (is_in (projection_type (Shot.camera shot)) ["equirectangular"; "spherical"]);
    [|simpl; auto].
  destruct (views_perspective shot (DataSet.depthmap_resolution data)) as [Hlen Hviews].
  destruct (add_subshots_urec shot _ (Pass.urec st) (Pass.graph st) Hviews Hc Hs)
    as [Hc' [Hs' _]].
  match goal with
  | |- context [add_subshots ?a ?b ?c ?d] =>
      destruct (add_subshots a b c d) as [[urec graph] [[]|e]]
  end;
    simpl in *; repeat split; auto.
  apply Dict_Forall_set; auto.
Qed.

(** X6: in the new reconstruction every camera and every shot has the
    projection type perspective, and every entry of [undistorted_shots]
    holds one shot or six shots of that type; this holds for every input and
    however the pass ends. *)
Theorem pass_keeps_perspective_only (data : DataSet.t) (graph : Graph.t)
    (reconstruction : Reconstruction.t) :
  undistorted_only
    (fst (undistort_shots data (initial_pass graph reconstruction)
            (Dict.values (Reconstruction.shots reconstruction)))).
Proof.
  apply undistort_shots_invariant.
  - apply undistort_shot_undistorted_only.
  - unfold undistorted_only, initial_pass, Dict_Forall. simpl. repeat split; constructor.
Qed.

Lemma add_subshots_points (shot : Shot.t) (subshots : list Shot.t)
    (urec : Reconstruction.t) (graph : Graph.t) :
  Reconstruction.points (fst (fst (add_subshots shot subshots urec graph)))
  = Reconstruction.points urec.
Proof.
  revert urec graph. induction subshots as [|subshot subshots IH]; intros urec graph;
    simpl; [reflexivity|].
  destruct (add_subshot_tracks graph shot subshot) as [graph1 [[]|e]]; simpl.
  - now rewrite IH.
  - reflexivity.
Qed.

Lemma undistort_shot_points (data : DataSet.t) (st : Pass.t) (shot : Shot.t) :
  Reconstruction.points (Pass.urec (fst (undistort_shot data st shot)))
  = Reconstruction.points (Pass.urec st).
Proof.
  unfold undistort_shot.
  destruct (String.eqb (projection_type (Shot.camera shot)) "perspective");
    [reflexivity|].
  destruct (String.eqb (projection_type (Shot.camera shot)) "brown").
  { destruct (as_brown _ (Shot.camera shot)); reflexivity. }
  destruct (String.eqb (projection_type (Shot.camera shot)) "fisheye").
  { destruct (as_fisheye _ (Shot.camera shot)); reflexivity. }
  destruct (is_in (projection_type (Shot.camera shot)) ["equirectangular"; "spherical"]);
    [|reflexivity].
  cbv zeta.
  match goal with
  | |- context [add_subshots ?a ?b ?c ?d] =>
      generalize (add_subshots_points a b c d);
      destruct (add_subshots a b c d) as [[urec graph] [[]|e]]
  end; simpl; auto.
Qed.

Lemma parallel_map_only_saves_rasters (data : DataSet.t)
    (arguments : list (Shot.t * list Shot.t * string * number)) :
  exists images masks segmentations,
    fst (parallel_map_undistort data arguments)
    = with_saved data images masks segmentations.
Proof.
  revert data.
  induction arguments as [|[[[shot ushots] image_format] image_scale] arguments IH];
    intros data; cbn [parallel_map_undistort].
  - exists [], [], []. now rewrite with_saved_nil.
  - destruct (task_effect shot ushots data image_format image_scale)
      as [i [m [s [H _]]]].
    destruct (undistort_image_and_masks (shot, ushots, data, image_format, image_scale))
      as [data1 [[]|e]]; cbn [fst] in H; subst data1.
    + destruct (IH (with_saved data i m s)) as [i' [m' [s' H']]].
      rewrite H', with_saved_with_saved. eauto.
    + cbn [fst]. eauto.
Qed.

(** [undistort_reconstruction], with the state in which its pass begins. *)
Lemma undistort_reconstruction_eq (graph : Graph.t) (reconstruction : Reconstruction.t)
    (data : DataSet.t) (image_format : string) (image_scale : number) :
  undistort_reconstruction graph reconstruction data image_format image_scale =
    let shots := Dict.values (Reconstruction.shots reconstruction) in
    match undistort_shots data (initial_pass graph reconstruction) shots with
    | (st, Raise e) => (data, Pass.graph st, Raise e)
    | (st, Ok _) =>
        let data := DataSet.save_undistorted_reconstruction data [Pass.urec st] in
        match task_arguments (Pass.undistorted_shots st) image_format image_scale shots with
        | Raise e => (data, Pass.graph st, Raise e)
        | Ok arguments =>
            match parallel_map_undistort data arguments with
            | (data, r) => (data, Pass.graph st, r)
            end
        end
    end.
Proof. reflexivity. Qed.

(** X7: [undistort_reconstruction] saves the new reconstruction exactly
    when its pass over the shots ends well: a pass that raises leaves the
    data set as it was, and after a pass that ends well the reconstruction of
    the pass is the one saved, with the points of the input, whatever
    happens to the tasks afterwards.  The call never saves the track graph,
    and the graph that it leaves is the graph of the pass. *)
Theorem reconstruction_saved_after_the_pass (graph : Graph.t)
    (reconstruction : Reconstruction.t) (data : DataSet.t)
    (image_format : string) (image_scale : number) :
  let pass := undistort_shots data (initial_pass graph reconstruction)
                (Dict.values (Reconstruction.shots reconstruction)) in
  let call := undistort_reconstruction graph reconstruction data
                image_format image_scale in
  snd (fst call) = Pass.graph (fst pass)
  /\ DataSet.undistorted_tracks_graph (fst (fst call))
     = DataSet.undistorted_tracks_graph data
  /\ Reconstruction.points (Pass.urec (fst pass)) = Reconstruction.points reconstruction
  /\ match snd pass with
     | Raise e => call = (data, Pass.graph (fst pass), Raise e)
     | Ok _ =>
         DataSet.undistorted_reconstruction (fst (fst call)) = Some [Pass.urec (fst pass)]
     end.
Proof.
  intros pass call. unfold call. rewrite undistort_reconstruction_eq. cbv zeta.
  fold pass.
  assert (Hpoints : Reconstruction.points (Pass.urec (fst pass))
                    = Reconstruction.points reconstruction).
  { unfold pass.
    apply (undistort_shots_invariant data
             (fun st => Reconstruction.points (Pass.urec st)
                        = Reconstruction.points reconstruction)).
    - intros st shot H. now rewrite undistort_shot_points.
    - reflexivity. }
  destruct pass as [st [[]|e]]; simpl in *.
  - destruct (task_arguments (Pass.undistorted_shots st) image_format image_scale
                (Dict.values (Reconstruction.shots reconstruction))) as [arguments|e];
      simpl; [|auto].
    destruct (parallel_map_only_saves_rasters
                (DataSet.save_undistorted_reconstruction data [Pass.urec st]) arguments)
      as [i [m [s H]]].
    destruct (parallel_map_undistort _ arguments) as [data' r]. simpl in *. subst data'.
    simpl. auto.
  - auto.
Qed.

Lemma undistort_shots_keys (data : DataSet.t) (shots : list Shot.t) (st : Pass.t) :
  let pass := undistort_shots data st shots in
  (forall k, Dict.mem (Pass.undistorted_shots st) k = true ->
             Dict.mem (Pass.undistorted_shots (fst pass)) k = true)
  /\ (forall k, Dict.mem (Pass.undistorted_shots (fst pass)) k = true ->
                Dict.mem (Pass.undistorted_shots st) k = true
                \/ exists s, In s shots /\ Shot.id s = k /\ supported s = true)
  /\ (snd pass = Ok tt ->
      forall s, In s shots -> supported s = true ->
                Dict.mem (Pass.undistorted_shots (fst pass)) (Shot.id s) = true).
Proof.
  revert st. induction shots as [|shot shots IH]; intros st; cbn [undistort_shots].
  - cbn. repeat split; auto.
  - pose proof (undistort_shot_mapping data st shot) as Hturn. cbv zeta in Hturn.
    destruct (undistort_shot data st shot) as [st1 r]. cbn [fst snd] in Hturn.
    assert (Hmono : forall k, Dict.mem (Pass.undistorted_shots st) k = true ->
                              Dict.mem (Pass.undistorted_shots st1) k = true).
    { intros k Hk. destruct Hturn as [[-> _]|[l [-> _]]]; [assumption|].
      now apply Dict_mem_set. }
    assert (Hinv : forall k, Dict.mem (Pass.undistorted_shots st1) k = true ->
                             Dict.mem (Pass.undistorted_shots st) k = true
                             \/ (Shot.id shot = k /\ supported shot = true)).
    { intros k Hk. destruct Hturn as [[E _]|[l [E [_ Hs]]]]; rewrite E in Hk; [now left|].
      apply Dict_mem_set_inv in Hk as [->|Hk]; auto. }
    destruct r as [[]|e]; cbn [fst snd].
    + destruct (IH st1) as [H1 [H2 H3]]. cbv zeta in *. repeat split.
      * auto.
      * intros k Hk. destruct (H2 k Hk) as [Hk1|[s [Hin [Hid Hs]]]].
        -- destruct (Hinv k Hk1) as [?|[Hid Hs]]; [now left|].
           right. exists shot. simpl. auto.
        -- right. exists s. simpl. auto.
      * intros Hok s [<-|Hin] Hs.
        -- apply H1. destruct Hturn as [[_ Hno]|[l [E _]]].
           ++ rewrite (Hno eq_refl) in Hs. discriminate.
           ++ rewrite E. apply Dict_mem_set_same.
        -- now apply H3.
    + repeat split.
      * auto.
      * intros k Hk. destruct (Hinv k Hk) as [?|[Hid Hs]]; [now left|].
        right. exists shot. simpl. auto.
      * discriminate.
Qed.

Lemma task_arguments_cases (undistorted_shots : Dict.t (list Shot.t))
    (image_format : string) (image_scale : number) (shots : list Shot.t) :
  match task_arguments undistorted_shots image_format image_scale shots with
  | Ok arguments =>
      forall s, In s shots -> Dict.mem undistorted_shots (Shot.id s) = true
  | Raise e =>
      exists s, In s shots /\ Dict.mem undistorted_shots (Shot.id s) = false
                /\ e = KeyError (Shot.id s)
  end.
Proof.
  unfold task_arguments. induction shots as [|shot shots IH]; simpl.
  - intros s [].
  - unfold Dict.getitem, Dict.mem in *.
    destruct (Dict.get undistorted_shots (Shot.id shot)) as [l|] eqn:E; simpl.
    + destruct (mapM _ shots) as [arguments|e]; simpl.
      * intros s [<-|Hin]; [now rewrite E | now apply IH].
      * destruct IH as [s [Hin Hs]]. exists s. auto.
    + exists shot. rewrite E. auto.
Qed.

(** X8: after a pass that ends well, the arguments of the tasks can be
    built exactly when every shot shares its id with a shot of a known
    projection type.  Otherwise the call stops with [KeyError] for the id of
    a shot of an unknown projection type, after the new reconstruction was
    saved and before any raster is read. *)
Theorem arguments_need_known_projection_types (graph : Graph.t)
    (reconstruction : Reconstruction.t) (data : DataSet.t)
    (image_format : string) (image_scale : number) (st : Pass.t) :
  let shots := Dict.values (Reconstruction.shots reconstruction) in
  undistort_shots data (initial_pass graph reconstruction) shots = (st, Ok tt) ->
  ((exists arguments,
      task_arguments (Pass.undistorted_shots st) image_format image_scale shots
      = Ok arguments)
   <-> (forall s, In s shots ->
          exists s', In s' shots /\ Shot.id s' = Shot.id s /\ supported s' = true))
  /\ ((exists bad, In bad shots
                   /\ forall s, In s shots -> Shot.id s = Shot.id bad ->
                                supported s = false) ->
      exists s,
        In s shots /\ supported s = false
        /\ undistort_reconstruction graph reconstruction data image_format image_scale
           = (DataSet.save_undistorted_reconstruction data [Pass.urec st],
              Pass.graph st, Raise (KeyError (Shot.id s)))).
Proof.
  intros shots Hpass.
  pose proof (undistort_shots_keys data shots (initial_pass graph reconstruction))
    as [_ [Hkeys Hreg]].
  cbv zeta in Hkeys, Hreg. rewrite Hpass in Hkeys, Hreg. cbn [fst snd] in Hkeys, Hreg.
  specialize (Hreg eq_refl).
  pose proof (task_arguments_cases (Pass.undistorted_shots st) image_format image_scale
                shots) as Hargs.
  split; [split|].
  - intros [arguments E] s Hin. rewrite E in Hargs.
    destruct (Hkeys _ (Hargs s Hin)) as [Hk|[s' H]]; [discriminate | eauto].
  - intros Hall.
    destruct (task_arguments _ _ _ shots) as [arguments|e]; [eauto|].
    destruct Hargs as [s [Hin [Hs _]]].
    destruct (Hall s Hin) as [s' [Hin' [Hid Hs']]].
    rewrite <- Hid, (Hreg s' Hin' Hs') in Hs. discriminate.
  - intros [bad [Hbad Hnone]].
    rewrite undistort_reconstruction_eq. cbv zeta. fold shots. rewrite Hpass.
    destruct (task_arguments _ _ _ shots) as [arguments|e].
    + destruct (Hkeys _ (Hargs bad Hbad)) as [Hk|[s' [Hin' [Hid Hs']]]]; [discriminate|].
      rewrite (Hnone s' Hin' Hid) in Hs'. discriminate.
    + destruct Hargs as [s [Hin [Hs ->]]]. exists s. repeat split; auto.
      destruct (supported s) eqn:E; [|reflexivity].
      rewrite (Hreg s Hin E) in Hs. discriminate.
Qed.

Lemma undistort_shot_lens (data : DataSet.t) (st : Pass.t) (shot u : Shot.t) :
  undistorted_shot_of shot = Some u ->
  undistort_shot data st shot
  = (Pass.Build
       (Reconstruction.add_shot
          (Reconstruction.add_camera (Pass.urec st) (Shot.camera u)) u)
       (Pass.graph st)
       (Dict.set (Pass.undistorted_shots st) (Shot.id shot) [u]),
     Ok tt)
  /\ Shot.id u = Shot.id shot.
Proof.
  unfold undistorted_shot_of, undistort_shot.
  destruct (Shot.camera shot) eqn:E; intros H; try discriminate;
    injection H as <-; simpl; rewrite ?E; simpl; split; reflexivity.
Qed.

Lemma lens_pass (data : DataSet.t) (shots : list Shot.t) :
  (forall s, In s shots -> undistorted_shot_of s <> None) ->
  NoDup (map Shot.id shots) ->
  forall st,
  exists st',
    undistort_shots data st shots = (st', Ok tt)
    /\ Pass.graph st' = Pass.graph st
    /\ (forall k, ~ In k (map Shot.id shots) ->
         Dict.get (Pass.undistorted_shots st') k = Dict.get (Pass.undistorted_shots st) k
         /\ Dict.get (Reconstruction.shots (Pass.urec st')) k
            = Dict.get (Reconstruction.shots (Pass.urec st)) k)
    /\ (forall s, In s shots ->
         exists u, undistorted_shot_of s = Some u
                   /\ Dict.get (Pass.undistorted_shots st') (Shot.id s) = Some [u]
                   /\ Dict.get (Reconstruction.shots (Pass.urec st')) (Shot.id s)
                      = Some u).
Proof.
  induction shots as [|shot shots IH]; intros Hlens Hnodup st; cbn [undistort_shots].
  - exists st. repeat split; auto. intros s [].
  - inversion Hnodup as [|x l Hnotin Hnodup']; subst.
    destruct (undistorted_shot_of shot) as [u|] eqn:Hu;
      [|now contradiction (Hlens shot (or_introl eq_refl))].
    destruct (undistort_shot_lens data st shot u Hu) as [Hturn Hid].
    rewrite Hturn.
    destruct (IH (fun s H => Hlens s (or_intror H)) Hnodup'
                (Pass.Build
                   (Reconstruction.add_shot
                      (Reconstruction.add_camera (Pass.urec st) (Shot.camera u)) u)
                   (Pass.graph st)
                   (Dict.set (Pass.undistorted_shots st) (Shot.id shot) [u])))
      as [st' [Hrun [Hgraph [Hother Hshots]]]].
    exists st'. split; [exact Hrun|]. split; [exact Hgraph|]. split.
    + intros k Hk. simpl in Hk.
      destruct (Hother k (fun H => Hk (or_intror H))) as [H1 H2].
      rewrite H1, H2. simpl. rewrite Hid.
      rewrite !Dict_get_set_other by (intros E; apply Hk; now left). auto.
    + intros s [<-|Hin].
      * exists u. split; [exact Hu|].
        destruct (Hother (Shot.id shot) Hnotin) as [H1 H2].
        rewrite H1, H2. simpl. rewrite Hid, !Dict_get_set_same. auto.
      * now apply Hshots.
Qed.

(** X9: for a reconstruction whose shots have distinct ids and lens cameras
    (perspective, brown or fisheye), the pass ends well and does not touch
    the track graph; each shot is mapped to one undistorted shot, which is
    also the shot of its id in the new reconstruction: the shot itself,
    with its camera unchanged, for a perspective camera, and a shot of the
    same id, pose and metadata with the converted camera for a brown or a
    fisheye camera. *)
Theorem lens_only_reconstruction (data : DataSet.t) (graph : Graph.t)
    (reconstruction : Reconstruction.t) :
  let shots := Dict.values (Reconstruction.shots reconstruction) in
  (forall s, In s shots -> undistorted_shot_of s <> None) ->
  NoDup (map Shot.id shots) ->
  exists st,
    undistort_shots data (initial_pass graph reconstruction) shots = (st, Ok tt)
    /\ Pass.graph st = graph
    /\ (forall s, In s shots ->
         exists u, undistorted_shot_of s = Some u
                   /\ Dict.get (Pass.undistorted_shots st) (Shot.id s) = Some [u]
                   /\ Dict.get (Reconstruction.shots (Pass.urec st)) (Shot.id s)
                      = Some u).
Proof.
  intros shots Hlens Hnodup.
  destruct (lens_pass data shots Hlens Hnodup (initial_pass graph reconstruction))
    as [st [Hrun [Hgraph [_ Hshots]]]].
  exists st. auto.
Qed.

(** *** The panorama splitter *)

Lemma views_ids (shot : Shot.t) (width : Z) :
  map Shot.id (perspective_views_of_a_panorama shot width)
  = map (fun name => Shot.id shot ++ "_perspective_view_" ++ name) names.
Proof. reflexivity. Qed.

Lemma views_ids_distinct (shot : Shot.t) (width : Z) :
  NoDup (map Shot.id (perspective_views_of_a_panorama shot width)).
Proof.
  rewrite views_ids. unfold names. simpl.
  repeat constructor; simpl; intros H;
    repeat match goal with
           | H : _ \/ _ |- _ => destruct H as [H|H]
           | H : (_ ++ _)%string = (_ ++ _)%string |- _ =>
               apply append_inj in H; discriminate H
           | H : False |- _ => contradiction
           end.
Qed.

Lemma views_ids_not_the_panorama (shot : Shot.t) (width : Z) (view : Shot.t) :
  In view (perspective_views_of_a_panorama shot width) ->
  Shot.id view <> Shot.id shot.
Proof.
  intros Hin. apply (in_map Shot.id) in Hin. rewrite views_ids in Hin.
  apply in_map_iff in Hin as [name [<- _]].
  apply append_neq. discriminate.
Qed.

Lemma views_camera (shot : Shot.t) (width : Z) (view : Shot.t) :
  In view (perspective_views_of_a_panorama shot width) ->
  Shot.camera view = Perspective (panorama_camera width).
Proof.
  unfold perspective_views_of_a_panorama. intros Hin.
  apply in_map_iff in Hin as [[name rotation] [<- _]]. reflexivity.
Qed.

(** X10: the ids of the six views of a panorama are pairwise distinct, and
    none of them is the id of the panorama, whatever that id is. *)
Theorem views_have_fresh_ids (shot : Shot.t) (width : Z) :
  NoDup (map Shot.id (perspective_views_of_a_panorama shot width))
  /\ Forall (fun view => Shot.id view <> Shot.id shot)
       (perspective_views_of_a_panorama shot width).
Proof.
  split; [apply views_ids_distinct|].
  apply Forall_forall. intros view. apply views_ids_not_the_panorama.
Qed.

(** *** The track graph projector, whatever its outcome *)

(** A turn of the loop leaves the graph as it is or adds one edge between
    the sub-shot and the track. *)
Lemma add_subshot_track_cases (panoshot perspectiveshot : Shot.t) (graph : Graph.t)
    (track : string) :
  match add_subshot_track panoshot perspectiveshot graph track with
  | Ok graph' =>
      graph' = graph
      \/ exists d, graph' = Graph.add_edge graph (Shot.id perspectiveshot) track d
  | Raise _ => True
  end.
Proof.
  unfold add_subshot_track.
  destruct (Graph.getitem graph (Shot.id panoshot)) as [nbrs|]; simpl; [|exact I].
  destruct (Dict.getitem nbrs track) as [edge|]; simpl; [|exact I].
  repeat match goal with
         | |- context [if ?b then _ else _] => destruct b
         end; eauto.
Qed.

Lemma add_subshot_tracks_loop_invariant (P : Graph.t -> Prop)
    (panoshot perspectiveshot : Shot.t) (tracks : list string) :
  (forall graph t d, In t tracks -> P graph ->
                     P (Graph.add_edge graph (Shot.id perspectiveshot) t d)) ->
  forall size graph,
    P graph ->
    P (fst (add_subshot_tracks_loop panoshot perspectiveshot tracks size graph)).
Proof.
  induction tracks as [|track tracks IH]; intros Hedge size graph HP;
    cbn [add_subshot_tracks_loop]; [exact HP|].
  pose proof (add_subshot_track_cases panoshot perspectiveshot graph track) as Hturn.
  destruct (add_subshot_track panoshot perspectiveshot graph track) as [graph1|e];
    [|exact HP].
  assert (HP1 : P graph1).
  { destruct Hturn as [->|[d ->]]; [exact HP|]. apply Hedge; [now left | exact HP]. }
  destruct (Nat.eqb _ size); [|exact HP1].
  apply IH; [|exact HP1]. intros g t d Hin. apply Hedge. now right.
Qed.

(** A property of the graph that [add_node] of the sub-shot keeps, and that
    adding an edge between the sub-shot and a track of the panorama keeps, is
    kept by [add_subshot_tracks], however it ends. *)
Lemma add_subshot_tracks_invariant (P : Graph.t -> Prop) (graph : Graph.t)
    (panoshot perspectiveshot : Shot.t) :
  (P graph -> P (Graph.add_node graph (Shot.id perspectiveshot) 0)) ->
  (forall graph' t d,
     In t (Dict.keys (Graph.neighbours graph (Shot.id panoshot))) -> P graph' ->
     P (Graph.add_edge graph' (Shot.id perspectiveshot) t d)) ->
  P graph -> P (fst (add_subshot_tracks graph panoshot perspectiveshot)).
Proof.
  intros Hnode Hedge HP. unfold add_subshot_tracks.
  destruct (Graph.contains graph (Shot.id panoshot)); simpl; [|exact HP].
  destruct (Graph.getitem _ (Shot.id panoshot)) as [nbrs|e] eqn:E; simpl; [|auto].
  apply getitem_neighbours in E. rewrite neighbours_add_node in E. subst nbrs.
  apply add_subshot_tracks_loop_invariant; auto.
Qed.

Lemma add_subshot_tracks_nodes (graph : Graph.t) (panoshot perspectiveshot : Shot.t)
    (n : string) :
  Graph.contains graph n = true ->
  Graph.contains (fst (add_subshot_tracks graph panoshot perspectiveshot)) n = true.
Proof.
  intros H.
  apply (add_subshot_tracks_invariant (fun g => Graph.contains g n = true));
    auto using contains_add_node, contains_add_edge.
Qed.

Lemma add_subshot_tracks_subshot_node (graph : Graph.t)
    (panoshot perspectiveshot : Shot.t) :
  Graph.contains graph (Shot.id panoshot) = true ->
  node_bipartite (fst (add_subshot_tracks graph panoshot perspectiveshot))
    (Shot.id perspectiveshot) = Some 0.
Proof.
  intros Hc. unfold add_subshot_tracks. rewrite Hc. simpl.
  destruct (Graph.getitem _ (Shot.id panoshot)) as [nbrs|e]; simpl.
  - apply (add_subshot_tracks_loop_invariant
             (fun g => node_bipartite g (Shot.id perspectiveshot) = Some 0)).
    + intros g t d _ H. now rewrite node_bipartite_add_edge.
    + now rewrite node_bipartite_add_node, String.eqb_refl.
  - now rewrite node_bipartite_add_node, String.eqb_refl.
Qed.

Lemma node_bipartite_contains (graph : Graph.t) (n : string) (b : Z) :
  node_bipartite graph n = Some b -> Graph.contains graph n = true.
Proof.
  unfold node_bipartite, Graph.contains, Dict.mem.
  destruct (Dict.get graph n); [reflexivity | discriminate].
Qed.

(** The adjacency of the panorama stays as it was. *)
Lemma add_subshot_tracks_panorama (graph : Graph.t) (panoshot perspectiveshot : Shot.t) :
  Shot.id perspectiveshot <> Shot.id panoshot ->
  Graph.edge graph (Shot.id panoshot) (Shot.id panoshot) = None ->
  Graph.neighbours (fst (add_subshot_tracks graph panoshot perspectiveshot))
    (Shot.id panoshot)
  = Graph.neighbours graph (Shot.id panoshot).
Proof.
  intros Hsub Hloop.
  apply (add_subshot_tracks_invariant
           (fun g => Graph.neighbours g (Shot.id panoshot)
                     = Graph.neighbours graph (Shot.id panoshot))).
  - intros _. apply neighbours_add_node.
  - intros g t d Hin H. rewrite neighbours_add_edge_other; auto.
    intros ->. apply Dict_mem_keys in Hin. unfold Dict.mem in Hin.
    unfold Graph.edge in Hloop. now rewrite Hloop in Hin.
  - reflexivity.
Qed.

(** The [bipartite] attribute of every node but the sub-shot stays as it
    was. *)
Lemma add_subshot_tracks_attributes (graph : Graph.t) (panoshot perspectiveshot : Shot.t)
    (n : string) :
  n <> Shot.id perspectiveshot ->
  node_bipartite (fst (add_subshot_tracks graph panoshot perspectiveshot)) n
  = node_bipartite graph n.
Proof.
  intros Hn.
  apply (add_subshot_tracks_invariant
           (fun g => node_bipartite g n = node_bipartite graph n)).
  - intros _. rewrite node_bipartite_add_node.
    destruct (String.eqb_spec n (Shot.id perspectiveshot)); congruence.
  - intros g t d _ H. now rewrite node_bipartite_add_edge.
  - reflexivity.
Qed.

(** X11: however it ends, [add_subshot_tracks] removes no node, changes
    the [bipartite] attribute of no node but the sub-shot, and changes no
    edge but those of the sub-shot; and when the panorama is a node of the
    graph the sub-shot becomes a node with [bipartite] 0, also when none of
    the observations is visible from it. *)
Theorem projector_only_adds (graph : Graph.t) (panoshot perspectiveshot : Shot.t) :
  let graph' := fst (add_subshot_tracks graph panoshot perspectiveshot) in
  (forall n, Graph.contains graph n = true -> Graph.contains graph' n = true)
  /\ (forall n, n <> Shot.id perspectiveshot ->
                node_bipartite graph' n = node_bipartite graph n)
  /\ (forall u v, u <> Shot.id perspectiveshot -> v <> Shot.id perspectiveshot ->
                  Graph.edge graph' u v = Graph.edge graph u v)
  /\ (Graph.contains graph (Shot.id panoshot) = true ->
      Graph.contains graph' (Shot.id perspectiveshot) = true
      /\ node_bipartite graph' (Shot.id perspectiveshot) = Some 0).
Proof.
  intros graph'. unfold graph'. repeat split.
  - intros n. apply add_subshot_tracks_nodes.
  - intros n. apply add_subshot_tracks_attributes.
  - intros u v Hu Hv.
    apply (add_subshot_tracks_invariant
             (fun g => Graph.edge g u v = Graph.edge graph u v)).
    + intros _. apply edge_add_node.
    + intros g t d _ H. rewrite edge_add_edge.
      destruct (String.eqb_spec u (Shot.id perspectiveshot)); [congruence|].
      destruct (String.eqb_spec v (Shot.id perspectiveshot)); [congruence|].
      now rewrite andb_false_r.
    + reflexivity.
  - apply node_bipartite_contains with (b := 0).
    now apply add_subshot_tracks_subshot_node.
  - now apply add_subshot_tracks_subshot_node.
Qed.

(** X12: [add_subshot_tracks] keeps the graph undirected: when every edge
    of the graph has the same data from both of its ends, so has every edge
    of the graph that the projector leaves, however it ends. *)
Theorem projector_keeps_the_graph_undirected (graph : Graph.t)
    (panoshot perspectiveshot : Shot.t) :
  symmetric graph ->
  symmetric (fst (add_subshot_tracks graph panoshot perspectiveshot)).
Proof.
  intros Hsym. apply add_subshot_tracks_invariant; [| |exact Hsym].
  - intros H u v. now rewrite !edge_add_node.
  - intros g t d _ H u v. rewrite !edge_add_edge, (H u v).
    repeat match goal with
           | |- context [String.eqb ?x ?y] => destruct (String.eqb x y)
           end; reflexivity.
Qed.

(** *** A panorama in the pass *)

Lemma add_subshots_views (shot : Shot.t) (camera : Camera) (subshots : list Shot.t) :
  (forall v, In v subshots -> Shot.id v <> Shot.id shot) ->
  (forall v, In v subshots -> Shot.camera v = camera) ->
  NoDup (map Shot.id subshots) ->
  forall urec graph,
    Graph.edge graph (Shot.id shot) (Shot.id shot) = None ->
    exists urec' graph',
      add_subshots shot subshots urec graph = (urec', graph', Ok tt)
      /\ Graph.neighbours graph' (Shot.id shot) = Graph.neighbours graph (Shot.id shot)
      /\ (forall n, Graph.contains graph n = true -> Graph.contains graph' n = true)
      /\ (forall n, ~ In n (map Shot.id subshots) ->
          node_bipartite graph' n = node_bipartite graph n)
      /\ (Graph.contains graph (Shot.id shot) = true ->
          forall v, In v subshots -> node_bipartite graph' (Shot.id v) = Some 0)
      /\ (forall v, In v subshots ->
          Dict.get (Reconstruction.shots urec') (Shot.id v) = Some v)
      /\ (forall k, ~ In k (map Shot.id subshots) ->
          Dict.get (Reconstruction.shots urec') k
          = Dict.get (Reconstruction.shots urec) k)
      /\ (Dict.get (Reconstruction.cameras urec) (camera_id camera) = Some camera
          \/ subshots <> [] ->
          Dict.get (Reconstruction.cameras urec') (camera_id camera) = Some camera).
Proof.
  induction subshots as [|subshot subshots IH]; intros Hids Hcam Hnodup urec graph Hloop;
    cbn [add_subshots].
  - exists urec, graph. repeat split; auto.
    + intros _ v [].
    + intros v [].
    + intros [H|H]; [exact H | now contradiction H].
  - inversion Hnodup as [|x l Hnotin Hnodup']; subst.
    assert (Hsub : Shot.id subshot <> Shot.id shot) by (apply Hids; now left).
    destruct (add_subshot_tracks_spec graph shot subshot Hsub Hloop) as [graph1 [Hrun _]].
    pose proof (add_subshot_tracks_panorama graph shot subshot Hsub Hloop) as Hpano.
    pose proof (add_subshot_tracks_nodes graph shot subshot) as Hnodes.
    pose proof (add_subshot_tracks_subshot_node graph shot subshot) as Hnode.
    pose proof (add_subshot_tracks_attributes graph shot subshot) as Hattr.
    rewrite Hrun in *. cbn [fst] in *.
    set (urec1 := Reconstruction.add_shot
                    (Reconstruction.add_camera urec (Shot.camera subshot)) subshot).
    assert (Hloop1 : Graph.edge graph1 (Shot.id shot) (Shot.id shot) = None)
      by (unfold Graph.edge in *; now rewrite Hpano).
    destruct (IH (fun v H => Hids v (or_intror H)) (fun v H => Hcam v (or_intror H))
                Hnodup' urec1 graph1 Hloop1)
      as [urec' [graph' [Hrun' [Hpano' [Hnodes' [Hattr' [Hsubs' [Hshots' [Hother' Hcams']]]]]]]]].
    exists urec', graph'. split; [exact Hrun'|].
    split; [congruence|]. split; [auto|]. split; [|split; [|split; [|split]]].
    + intros n Hn. simpl in Hn. rewrite Hattr' by tauto. apply Hattr.
      intros E. apply Hn. left. now symmetry.
    + intros Hc v [<-|Hin].
      * rewrite (Hattr' (Shot.id subshot) Hnotin). now apply Hnode.
      * apply Hsubs'; auto.
    + intros v [<-|Hin].
      * rewrite (Hother' (Shot.id subshot) Hnotin). unfold urec1. simpl.
        apply Dict_get_set_same.
      * now apply Hshots'.
    + intros k Hk. simpl in Hk.
      rewrite (Hother' k (fun H => Hk (or_intror H))). unfold urec1. simpl.
      apply Dict_get_set_other. intros E. apply Hk. now left.
    + intros _. apply Hcams'. left. unfold urec1. simpl.
      rewrite (Hcam subshot (or_introl eq_refl)). apply Dict_get_set_same.
Qed.

(** X13: a turn of the pass on a panorama that is not its own neighbour in
    the graph does not raise.  It records the six views of the splitter as
    the undistorted shots of the panorama, registers each view under its own
    id and their camera under [perspective_panorama_camera], does not
    register the panorama itself, and leaves the tracks of the panorama as
    they were. *)
Theorem panorama_turn (data : DataSet.t) (st : Pass.t) (shot : Shot.t) :
  is_in (projection_type (Shot.camera shot)) ["equirectangular"; "spherical"] = true ->
  Graph.edge (Pass.graph st) (Shot.id shot) (Shot.id shot) = None ->
  let width := DataSet.depthmap_resolution data in
  let views := perspective_views_of_a_panorama shot width in
  exists st',
    undistort_shot data st shot = (st', Ok tt)
    /\ Dict.get (Pass.undistorted_shots st') (Shot.id shot) = Some views
    /\ (forall view, In view views ->
        Dict.get (Reconstruction.shots (Pass.urec st')) (Shot.id view) = Some view)
    /\ Dict.get (Reconstruction.shots (Pass.urec st')) (Shot.id shot)
       = Dict.get (Reconstruction.shots (Pass.urec st)) (Shot.id shot)
    /\ Dict.get (Reconstruction.cameras (Pass.urec st')) "perspective_panorama_camera"
       = Some (Perspective (panorama_camera width))
    /\ Graph.neighbours (Pass.graph st') (Shot.id shot)
       = Graph.neighbours (Pass.graph st) (Shot.id shot)
    /\ (forall n, Graph.contains (Pass.graph st) n = true ->
        Graph.contains (Pass.graph st') n = true).
Proof.
  intros Hp Hloop width views.
  destruct (add_subshots_views shot (Perspective (panorama_camera width)) views
              (views_ids_not_the_panorama shot width) (views_camera shot width)
              (views_ids_distinct shot width) (Pass.urec st) (Pass.graph st) Hloop)
    as [urec' [graph' [Hrun [Hpano [Hnodes [_ [_ [Hshots [Hother Hcams]]]]]]]]].
  exists (Pass.Build urec' graph'
            (Dict.set (Pass.undistorted_shots st) (Shot.id shot) views)).
  split; [|split; [|split; [|split; [|split; [|split]]]]].
  - unfold undistort_shot. cbv zeta.
    pose proof (is_in_panorama_not_lens _ Hp) as Hlens.
    unfold is_in in Hlens. cbn [existsb] in Hlens.
    apply orb_false_iff in Hlens as [H1 Hlens].
    apply orb_false_iff in Hlens as [H2 Hlens].
    apply orb_false_iff in Hlens as [H3 _].
    rewrite H1, H2, H3, Hp. fold width. fold views. now rewrite Hrun.
  - cbn [Pass.undistorted_shots]. apply Dict_get_set_same.
  - exact Hshots.
  - cbn [Pass.urec]. apply Hother. intros Hin.
    apply in_map_iff in Hin as [view [Hid Hin]].
    exact (views_ids_not_the_panorama shot width view Hin Hid).
  - cbn [Pass.urec]. apply Hcams. right. discriminate.
  - exact Hpano.
  - exact Hnodes.
Qed.

(** *** The command *)

Lemma add_subshots_nodes (shot : Shot.t) (subshots : list Shot.t) (n : string) :
  forall urec graph,
    Graph.contains graph n = true ->
    Graph.contains (snd (fst (add_subshots shot subshots urec graph))) n = true.
Proof.
  induction subshots as [|subshot subshots IH]; intros urec graph H;
    cbn [add_subshots].
  - exact H.
  - pose proof (add_subshot_tracks_nodes graph shot subshot n H) as H1.
    destruct (add_subshot_tracks graph shot subshot) as [graph1 [[]|e]];
      cbn [fst snd] in *.
    + now apply IH.
    + exact H1.
Qed.

Lemma undistort_shot_nodes (data : DataSet.t) (st : Pass.t) (shot : Shot.t)
    (n : string) :
  Graph.contains (Pass.graph st) n = true ->
  Graph.contains (Pass.graph (fst (undistort_shot data st shot))) n = true.
Proof.
  intros H. unfold undistort_shot. cbv zeta.
  repeat match goal with
         | |- context [if ?b then _ else _] => destruct b
         | |- context [match as_brown ?a ?c with _ => _ end] => destruct (as_brown a c)
         | |- context [match as_fisheye ?a ?c with _ => _ end] => destruct (as_fisheye a c)
         end; try exact H.
  match goal with
  | |- context [add_subshots ?a ?b ?c ?d] =>
      generalize (add_subshots_nodes a b n c d H);
      destruct (add_subshots a b c d) as [[urec graph] [[]|e]]
  end; cbn [fst snd Pass.graph]; auto.
Qed.

Lemma undistort_reconstruction_effect (graph : Graph.t)
    (reconstruction : Reconstruction.t) (data : DataSet.t)
    (image_format : string) (image_scale : number) :
  let call := undistort_reconstruction graph reconstruction data
                image_format image_scale in
  DataSet.undistorted_tracks_graph (fst (fst call))
  = DataSet.undistorted_tracks_graph data
  /\ forall n, Graph.contains graph n = true ->
               Graph.contains (snd (fst call)) n = true.
Proof.
  intros call. unfold call. rewrite undistort_reconstruction_eq. cbv zeta.
  set (shots := Dict.values (Reconstruction.shots reconstruction)).
  assert (Hnodes : forall n, Graph.contains graph n = true ->
                     Graph.contains
                       (Pass.graph (fst (undistort_shots data
                                           (initial_pass graph reconstruction) shots)))
                       n = true).
  { intros n H.
    apply (undistort_shots_invariant data
             (fun st => Graph.contains (Pass.graph st) n = true)).
    - intros st shot. apply undistort_shot_nodes.
    - exact H. }
  destruct (undistort_shots data (initial_pass graph reconstruction) shots)
    as [st [[]|e]]; cbn [fst snd] in *.
  - destruct (task_arguments (Pass.undistorted_shots st) image_format image_scale shots)
      as [arguments|e]; cbn [fst snd]; [|auto].
    destruct (parallel_map_only_saves_rasters
                (DataSet.save_undistorted_reconstruction data [Pass.urec st]) arguments)
      as [i [m [s H]]].
    destruct (parallel_map_undistort _ arguments) as [data' r].
    cbn [fst snd] in *. subst data'. split; [reflexivity | exact Hnodes].
  - auto.
Qed.

(** X15: [run] saves the track graph last, and only when nothing raised
    before.  With no reconstruction, or an empty list of them, it saves the
    loaded graph as it is and changes nothing else.  When it ends well the
    graph that it saves has every node of the loaded graph; when it raises
    no track graph is saved. *)
Theorem run_saves_the_track_graph_last (data : DataSet.t) (image_format : string)
    (image_scale : number) :
  let result := run data image_format image_scale in
  match DataSet.reconstruction data with
  | Some (_ :: _) => True
  | _ => result
         = (DataSet.save_undistorted_tracks_graph data (DataSet.tracks_graph data),
            Ok tt)
  end
  /\ match snd result with
     | Ok _ =>
         exists graph,
           DataSet.undistorted_tracks_graph (fst result) = Some graph
           /\ forall n, Graph.contains (DataSet.tracks_graph data) n = true ->
                        Graph.contains graph n = true
     | Raise _ =>
         DataSet.undistorted_tracks_graph (fst result)
         = DataSet.undistorted_tracks_graph data
     end.
Proof.
  intros result. unfold result, run. cbv zeta.
  destruct (DataSet.reconstruction data) as [[|reconstruction rest]|].
  - cbn. split; [reflexivity|]. eexists. split; [reflexivity | auto].
  - split; [exact I|].
    destruct (undistort_reconstruction_effect (DataSet.tracks_graph data)
                reconstruction data image_format image_scale) as [Hsaved Hnodes].
    destruct (undistort_reconstruction (DataSet.tracks_graph data) reconstruction
                data image_format image_scale) as [[data' graph'] [[]|e]];
      cbn [fst snd] in *.
    + exists graph'. split; [reflexivity | exact Hnodes].
    + exact Hsaved.
  - cbn. split; [reflexivity|]. eexists. split; [reflexivity | auto].
Qed.

End Coverage.

(** ** The theorems on concrete inputs *)

#[local] Existing Instance stub_external.

(** The two bad observations of the example add no edge to the sub-shot
    that looks backwards. *)
Lemma visibility_of_added_edges_witness :
  Shot.id example_back <> Shot.id example_panorama
  /\ Graph.edge example_graph (Shot.id example_panorama) (Shot.id example_panorama) = None
  /\ exists graph',
       add_subshot_tracks example_graph example_panorama example_back = (graph', Ok tt)
       /\ Graph.edge graph' (Shot.id example_back) "track1" = None.
Proof.
  assert (H1 : Shot.id example_back <> Shot.id example_panorama) by discriminate.
  assert (H2 : Graph.edge example_graph (Shot.id example_panorama)
                 (Shot.id example_panorama) = None) by reflexivity.
  split; [exact H1|]. split; [exact H2|].
  destruct (visibility_of_added_edges example_graph example_panorama example_back H1 H2)
    as [graph' [Hrun [Hout _]]].
  exists graph'. split; [exact Hrun|].
  rewrite (Hout "track1" example_observation eq_refl (or_introl eq_refl)).
  reflexivity.
Defined.

(** An observation whose first coordinate is not a number is not rejected
    by any of the tests: the front sub-shot gets an edge to its track, and
    no coordinate of the feature of that edge is in [-0.5, 0.5]. *)
Lemma nan_observation_adds_an_edge :
  exists graph' d,
    add_subshot_tracks example_nan_graph example_panorama example_front = (graph', Ok tt)
    /\ Graph.edge example_nan_graph (Shot.id example_panorama) "track3"
       = Some example_nan_observation
    /\ Graph.edge example_nan_graph (Shot.id example_front) "track3" = None
    /\ Graph.edge graph' (Shot.id example_front) "track3" = Some d
    /\ (0 <? snd (rotated_bearing_of example_panorama example_front
                    (Graph.feature example_nan_observation)))%float = false
    /\ (-0.5 <=? fst (Graph.feature d))%float = false
    /\ (fst (Graph.feature d) <=? 0.5)%float = false
    /\ (-0.5 <=? snd (Graph.feature d))%float = false
    /\ (snd (Graph.feature d) <=? 0.5)%float = false.
Proof.
  eexists. eexists. split; [vm_compute; reflexivity|].
  repeat split; vm_compute; reflexivity.
Qed.

(** A panorama, resampled for a sub-view of two by two pixels. *)
Lemma panorama_resampling_interpolation_witness :
  is_in (projection_type (Shot.camera example_panorama)) ["equirectangular"; "spherical"]
  = true
  /\ shape example_image = [480; 640; 3]
  /\ undistort_image example_panorama [example_small_front] example_data_with_rasters
       (Some example_image) INTER_AREA (PyFloat 1)
     = Ok (Some [(ByShot example_small_front, Build_ndarray [2; 2; 3] [])]).
Proof.
  split; [reflexivity|]. split; [reflexivity|].
  destruct (panorama_resampling_interpolation example_panorama [example_small_front]
              example_data_with_rasters example_image INTER_AREA (PyFloat 1)
              480 640 [3] eq_refl eq_refl) as [H _].
  rewrite H. reflexivity.
Defined.

(** The first observation of the example, seen by the front sub-shot. *)
Lemma projected_edge_payload_witness :
  Shot.id example_front <> Shot.id example_panorama
  /\ exists graph',
       add_subshot_tracks example_graph example_panorama example_front = (graph', Ok tt)
       /\ Graph.edge graph' (Shot.id example_front) "track1" =
            Some {| Graph.feature := (0.125, 0.0625)%float;
                    Graph.feature_id := 7;
                    Graph.feature_color := (255, 128, 0) |}.
Proof.
  assert (H1 : Shot.id example_front <> Shot.id example_panorama) by discriminate.
  split; [exact H1|].
  exact (projected_edge_payload example_graph example_panorama example_front
           "track1" example_observation H1 eq_refl eq_refl eq_refl).
Defined.

(** A perspective image of 640 by 480 pixels. *)
Lemma lens_distortion_coefficients_witness :
  shape example_image = [480; 640; 3]
  /\ forall camera : BrownPerspectiveCamera.t,
       undistort_brown_image example_image camera
         (Perspective (perspective_camera_from_brown camera)) INTER_AREA
       = Ok (Build_ndarray [480; 640; 3] []).
Proof.
  split; [reflexivity|]. intros camera.
  destruct (lens_distortion_coefficients example_image 480 640 [3]
              (Perspective (perspective_camera_from_brown camera)) INTER_AREA eq_refl)
    as [_ [_ [_ H]]].
  rewrite H. reflexivity.
Defined.

(** A shot that has no observation in the graph of the example. *)
Lemma panorama_not_in_graph_witness :
  Graph.contains example_graph (Shot.id example_perspective_shot) = false
  /\ add_subshot_tracks example_graph example_perspective_shot example_front
     = (example_graph, Ok tt).
Proof.
  split; [reflexivity|].
  apply panorama_not_in_graph. reflexivity.
Defined.


(** The image of the task is scaled by one half; its mask and its
    segmentation keep their 640 by 480 pixels.  With a scale that leaves no
    pixel the task stops at the image and saves nothing. *)
Lemma masks_and_segmentations_unscaled_witness :
  undistort_image_and_masks
    (example_perspective_shot, [example_perspective_shot],
     example_data_with_rasters, "jpg", PyFloat 0.5)
  = (with_saved example_data_with_rasters
       [(ById "a.jpg", Build_ndarray [240; 320; 3] [], "jpg")]
       [(ById "a.jpg", Build_ndarray [480; 640] [])]
       [(ById "a.jpg", Build_ndarray [480; 640] [])],
     Ok tt)
  /\ undistort_image_and_masks
       (example_perspective_shot, [example_perspective_shot],
        example_data_with_rasters, "jpg", PyFloat 0.0009765625)
     = (example_data_with_rasters, Raise Cv2Error).
Proof.
  split.
  - rewrite (proj1 (masks_and_segmentations_unscaled example_perspective_shot
                      [example_perspective_shot] example_data_with_rasters
                      "jpg" (PyFloat 0.5))).
    reflexivity.
  - rewrite (proj1 (masks_and_segmentations_unscaled example_perspective_shot
                      [example_perspective_shot] example_data_with_rasters
                      "jpg" (PyFloat 0.0009765625))).
    reflexivity.
Defined.

(** The reconstruction of the example holds a shot of the projection type
    [dual]: its pass ends well, and the call stops with [KeyError] for that
    shot. *)
Lemma arguments_need_known_projection_types_witness :
  exists st s,
    undistort_shots example_data (initial_pass Dict.empty example_reconstruction)
      (Dict.values (Reconstruction.shots example_reconstruction)) = (st, Ok tt)
    /\ In s (Dict.values (Reconstruction.shots example_reconstruction))
    /\ supported s = false
    /\ undistort_reconstruction Dict.empty example_reconstruction example_data
         "jpg" (PyFloat 1)
       = (DataSet.save_undistorted_reconstruction example_data [Pass.urec st],
          Pass.graph st, Raise (KeyError (Shot.id s))).
Proof.
  exists (fst (undistort_shots example_data
                 (initial_pass Dict.empty example_reconstruction)
                 (Dict.values (Reconstruction.shots example_reconstruction)))).
  destruct (arguments_need_known_projection_types Dict.empty example_reconstruction
              example_data "jpg" (PyFloat 1) _ eq_refl) as [_ H].
  destruct H as [s [Hin [Hs Hcall]]].
  - exists example_unsupported_shot. split; [right; now left|].
    intros s [<-|[<-|[]]]; [discriminate | reflexivity].
  - exists s. split; [reflexivity|]. auto.
Defined.

(** A perspective shot and a brown shot: the pass ends well and leaves the
    graph of the example as it is. *)
Lemma lens_only_reconstruction_witness :
  exists st,
    undistort_shots example_data (initial_pass example_graph example_lens_reconstruction)
      (Dict.values (Reconstruction.shots example_lens_reconstruction)) = (st, Ok tt)
    /\ Pass.graph st = example_graph
    /\ exists u, undistorted_shot_of example_brown_shot = Some u
                 /\ Dict.get (Pass.undistorted_shots st) "c.jpg" = Some [u]
                 /\ Dict.get (Reconstruction.shots (Pass.urec st)) "c.jpg" = Some u.
Proof.
  assert (Hlens : forall s,
             In s (Dict.values (Reconstruction.shots example_lens_reconstruction)) ->
             undistorted_shot_of s <> None)
    by (intros s [<-|[<-|[]]]; discriminate).
  assert (Hnodup : NoDup (map Shot.id
                            (Dict.values
                               (Reconstruction.shots example_lens_reconstruction)))).
  { repeat constructor; simpl; intros H;
      repeat match goal with
             | H : _ \/ _ |- _ => destruct H as [H|H]
             | H : False |- _ => contradiction
             | H : _ = _ |- _ => discriminate H
             end. }
  destruct (lens_only_reconstruction example_data example_graph
              example_lens_reconstruction Hlens Hnodup) as [st [Hrun [Hgraph Hshots]]].
  exists st. split; [exact Hrun|]. split; [exact Hgraph|].
  exact (Hshots example_brown_shot (or_intror (or_introl eq_refl))).
Defined.

(** The graph of the example is undirected, and stays so when the front
    view of its panorama is added. *)
Lemma projector_keeps_the_graph_undirected_witness :
  symmetric example_graph
  /\ symmetric (fst (add_subshot_tracks example_graph example_panorama example_front)).
Proof.
  assert (H : symmetric example_graph).
  { intros u v. unfold Graph.edge, Graph.neighbours, example_graph. simpl.
    repeat match goal with
           | |- context [String.eqb ?a ?b] =>
               destruct (String.eqb_spec a b); try subst; simpl
           end;
      try reflexivity; congruence. }
  split; [exact H|].
  exact (projector_keeps_the_graph_undirected example_graph example_panorama
           example_front H).
Defined.

(** The panorama of the example, in the graph of the example. *)
Lemma panorama_turn_witness :
  is_in (projection_type (Shot.camera example_panorama)) ["equirectangular"; "spherical"]
  = true
  /\ Graph.edge example_graph (Shot.id example_panorama) (Shot.id example_panorama) = None
  /\ exists st',
       undistort_shot example_data (Pass.Build Reconstruction.new example_graph Dict.empty)
         example_panorama = (st', Ok tt)
       /\ Dict.get (Pass.undistorted_shots st') "pano.jpg"
          = Some (perspective_views_of_a_panorama example_panorama 640)
       /\ Dict.get (Reconstruction.shots (Pass.urec st')) "pano.jpg" = None
       /\ Graph.neighbours (Pass.graph st') "pano.jpg"
          = Graph.neighbours example_graph "pano.jpg".
Proof.
  split; [reflexivity|]. split; [reflexivity|].
  destruct (panorama_turn example_data
              (Pass.Build Reconstruction.new example_graph Dict.empty)
              example_panorama eq_refl eq_refl)
    as [st' [Hrun [Hviews [_ [Hpano [_ [Hnbrs _]]]]]]].
  exists st'. split; [exact Hrun|]. split; [exact Hviews|].
  split; [exact Hpano | exact Hnbrs].
Defined.
